(** * SG-Fire-Calculator: the projection engine, embedded and verified

    A shallow embedding of [src/lib/calculator.ts], [src/lib/cpf.ts], the
    historical backtest, and the arithmetic the components do on the
    engine's results: the runway of [src/components/CountryDetail.tsx], the
    feasibility score of [src/components/GlobeVisualization.tsx], the CPF
    amount and the runway chart of [src/App.tsx] and the per-country
    projection of [CountryProjection].

    Conventions of the embedding.
    - A JavaScript [number] that carries money, a rate or a balance is an
      exact rational ([Q]): IEEE-754 rounding, infinities and NaN are not
      modelled.  Equality of numbers is [Qeq] ([==]).  Where the source can
      produce NaN or [undefined] (0/0, an index past the end of an array)
      the model returns an [option].  Division by zero is [0] in [Q]; every
      theorem that goes through a division states what makes the divisor
      non-zero.
    - A [number] used as a loop bound, a year offset, an age or a trial
      count is a [nat].
    - A [for] loop that pushes onto an array is a structural recursion on
      the number of iterations left, consing the record of the current
      iteration in front of those of the later ones.
    - [Math.random()] reads the next cell of a tape [nat -> Q]; the position
      on the tape is threaded through the loops in call order. *)

From Stdlib Require Import QArith Qround Qabs Qpower Lqa Lia ZArith Bool List
  Arith PeanoNat Sorting.Sorted Sorting.Permutation.
Import ListNotations.
Open Scope Q_scope.

(** ** JavaScript numbers and [Math] *)

Abbreviation number := Q (only parsing).

(** [a <= b], [a < b], [a > b], [a >= b] of the source. *)
Definition num_le (a b : number) : bool := Qle_bool a b.
Definition num_lt (a b : number) : bool := negb (Qle_bool b a).
Definition num_gt (a b : number) : bool := negb (Qle_bool a b).
Definition num_ge (a b : number) : bool := Qle_bool b a.

Definition Math_max (a b : number) : number := if Qle_bool a b then b else a.
Definition Math_min (a b : number) : number := if Qle_bool a b then a else b.

(** [Math.floor] as an integer, and as the number it denotes. *)
Definition Math_floor (x : number) : Z := Qfloor x.
Definition Math_floor_num (x : number) : number := inject_Z (Qfloor x).

(** [Math.round]: the nearest integer, halves rounded towards +infinity. *)
Definition Math_round (x : number) : number := inject_Z (Qfloor (x + 0.5)).

(** A year offset or an age used in arithmetic with numbers. *)
Definition of_nat (n : nat) : number := inject_Z (Z.of_nat n).

(** ** calculator.ts *)

Record PortfolioInputs := mkPortfolioInputs {
  currentSavings : number;
  monthlyContribution : number;
  yearsToRetirement : nat;
  expectedReturn : number;
  inflationRate : number;
  withdrawalRate : number
}.

Record SimulationResult := mkSimulationResult {
  year : nat;
  age : nat;
  portfolioValue : number;
  contribution : number;
  returns : number;
  withdrawal : number;
  inflationAdjustedValue : number
}.

Record FIREResult := mkFIREResult {
  portfolioAtRetirement : number;
  annualWithdrawal : number;
  monthlyWithdrawal : number;
  yearsOfRunway : nat;
  projections : list SimulationResult;
  successProbability : number;
  fireNumber : number
}.

(** The body of the loop of [calculateAccumulation]: [n] iterations are
    left, the current one is year [yr]. *)
Fixpoint accumulation_loop (inputs : PortfolioInputs) (currentAge : nat)
    (n yr : nat) (pv cumulativeInflation : number) : list SimulationResult :=
  match n with
  | O => []
  | S n' =>
      let contribution :=
        if Nat.eqb yr 0 then 0 else monthlyContribution inputs * 12 in
      let returns := pv * expectedReturn inputs in
      let cumulativeInflation' :=
        cumulativeInflation * (1 + inflationRate inputs) in
      mkSimulationResult yr (currentAge + yr) pv contribution returns 0
        (pv / cumulativeInflation')
      :: accumulation_loop inputs currentAge n' (S yr)
           (pv + contribution + returns) cumulativeInflation'
  end.

(** [for (year = 0; year <= yearsToRetirement; year++)]:
    [yearsToRetirement + 1] iterations. *)
Definition calculateAccumulation (inputs : PortfolioInputs) (currentAge : nat)
    : list SimulationResult :=
  accumulation_loop inputs currentAge (S (yearsToRetirement inputs)) 0
    (currentSavings inputs) 1.

(** The inner loop of [calculateDrawdown] after depletion:
    [for (remaining = year + 1; remaining <= years; remaining++)]. *)
Fixpoint depleted_fill (startAge : nat) (n remaining : nat)
    : list SimulationResult :=
  match n with
  | O => []
  | S n' =>
      mkSimulationResult remaining (startAge + remaining) 0 0 0 0 0
      :: depleted_fill startAge n' (S remaining)
  end.

(** The main loop of [calculateDrawdown]; [n = years + 1 - yr] iterations
    are left.  On depletion the [years - yr = n - 1] remaining records are
    filled in and the loop is left ([break]). *)
Fixpoint drawdown_loop (expRet inflRate : number) (startAge : nat)
    (n yr : nat) (pv currentWithdrawal cumulativeInflation : number)
    : list SimulationResult :=
  match n with
  | O => []
  | S n' =>
      let returns := pv * expRet in
      let withdrawal := if Nat.eqb yr 0 then 0 else currentWithdrawal in
      let cumulativeInflation' := cumulativeInflation * (1 + inflRate) in
      let rec :=
        mkSimulationResult yr (startAge + yr) (Math_max 0 pv) 0
          (if num_gt pv 0 then returns else 0) withdrawal
          (Math_max 0 pv / cumulativeInflation') in
      let pv' := pv + returns - withdrawal in
      let currentWithdrawal' := currentWithdrawal * (1 + inflRate) in
      if num_le pv' 0
      then rec :: depleted_fill startAge n' (S yr)
      else rec :: drawdown_loop expRet inflRate startAge n' (S yr)
                    pv' currentWithdrawal' cumulativeInflation'
  end.

Definition calculateDrawdown (startingPortfolio annualWithdrawal0 expRet
    inflRate : number) (years startAge : nat) : list SimulationResult :=
  drawdown_loop expRet inflRate startAge (S years) 0
    startingPortfolio annualWithdrawal0 1.

(** [Array.prototype.findIndex]; [None] is the source's [-1]. *)
Fixpoint findIndex {A : Type} (p : A -> bool) (l : list A) : option nat :=
  match l with
  | [] => None
  | x :: l' =>
      if p x then Some 0%nat
      else match findIndex p l' with
           | Some i => Some (S i)
           | None => None
           end
  end.

Definition zeroResult : SimulationResult := mkSimulationResult 0 0 0 0 0 0 0.

(** [retirementYears] has the default 40 in the source; callers of the
    model pass it explicitly.  [accumulationResults] is never empty
    (lemma [calculateAccumulation_length]), so the read of its last element
    never falls outside the array. *)
Definition calculateFIRE (inputs : PortfolioInputs) (currentAge : nat)
    (monthlyExpenses : number) (retirementYears : nat) : FIREResult :=
  let accumulationResults := calculateAccumulation inputs currentAge in
  let portfolioAtRetirement :=
    portfolioValue (last accumulationResults zeroResult) in
  let annualExpenses := monthlyExpenses * 12 in
  let fireNumber := annualExpenses / withdrawalRate inputs in
  let annualWithdrawal := portfolioAtRetirement * withdrawalRate inputs in
  let monthlyWithdrawal := annualWithdrawal / 12 in
  let retirementAge := (currentAge + yearsToRetirement inputs)%nat in
  let drawdownResults :=
    calculateDrawdown portfolioAtRetirement annualWithdrawal
      (expectedReturn inputs - 0.01) (inflationRate inputs)
      retirementYears retirementAge in
  let depletionYear :=
    findIndex (fun r => num_le (portfolioValue r) 0) drawdownResults in
  let yearsOfRunway :=
    match depletionYear with None => retirementYears | Some d => d end in
  let successProbability :=
    if num_ge portfolioAtRetirement fireNumber then 0.95
    else (portfolioAtRetirement / fireNumber) * 0.8 in
  mkFIREResult portfolioAtRetirement annualWithdrawal monthlyWithdrawal
    yearsOfRunway (accumulationResults ++ tl drawdownResults)
    (Math_min successProbability 0.99) fireNumber.

(** [Array.prototype.sort] with a numeric comparator
    [(a, b) => key(a) - key(b)]: a stable ascending sort, here by insertion
    from the right. *)
Fixpoint insert_by {A : Type} (key : A -> number) (x : A) (l : list A)
    : list A :=
  match l with
  | [] => [x]
  | y :: l' =>
      if Qle_bool (key x) (key y) then x :: y :: l'
      else y :: insert_by key x l'
  end.

Fixpoint sort_by {A : Type} (key : A -> number) (l : list A) : list A :=
  match l with
  | [] => []
  | x :: l' => insert_by key x (sort_by key l')
  end.

Definition sort_numbers (l : list number) : list number :=
  sort_by (fun x => x) l.

(** The defined elements of an array that may hold [undefined]. *)
Fixpoint defined {A : Type} (l : list (option A)) : list A :=
  match l with
  | [] => []
  | Some x :: l' => x :: defined l'
  | None :: l' => defined l'
  end.

(** [sort] on an array of numbers that may hold [undefined]: the defined
    elements are sorted and every [undefined] goes to the end. *)
Definition sort_numbers_undef (l : list (option number))
    : list (option number) :=
  map Some (sort_numbers (defined l))
  ++ repeat None (length l - length (defined l)).

(** [r[r.length - 1]]: [undefined] on the empty array. *)
Definition last_elem {A : Type} (l : list A) : option A :=
  nth_error l (length l - 1).

Record MonteCarloResult := mkMonteCarloResult {
  percentile5 : list (option number);
  percentile25 : list (option number);
  percentile50 : list (option number);
  percentile75 : list (option number);
  percentile95 : list (option number);
  successRate : option number;
  medianEndValue : option number;
  years : list nat
}.

Definition volatility : number := 0.15.

(** The accumulation phase of one trial: pushed values, final portfolio and
    the position reached on the random tape. *)
Fixpoint mc_accumulation (rnd : nat -> number) (inputs : PortfolioInputs)
    (n : nat) (portfolio : number) (pos : nat)
    : list number * number * nat :=
  match n with
  | O => ([], portfolio, pos)
  | S n' =>
      let randomReturn :=
        expectedReturn inputs + (rnd pos - 0.5) * 2 * volatility in
      let portfolio' :=
        portfolio * (1 + randomReturn) + monthlyContribution inputs * 12 in
      let '(vs, p, pos') :=
        mc_accumulation rnd inputs n' portfolio' (S pos) in
      (portfolio' :: vs, p, pos')
  end.

(** The retirement phase of one trial. *)
Fixpoint mc_retirement (rnd : nat -> number) (inputs : PortfolioInputs)
    (n : nat) (portfolio withdrawal : number) (pos : nat)
    : list number * nat :=
  match n with
  | O => ([], pos)
  | S n' =>
      let randomReturn :=
        (expectedReturn inputs - 0.01) + (rnd pos - 0.5) * 2 * volatility in
      let portfolio' := portfolio * (1 + randomReturn) - withdrawal in
      let withdrawal' := withdrawal * (1 + inflationRate inputs) in
      let '(vs, pos') :=
        mc_retirement rnd inputs n' portfolio' withdrawal' (S pos) in
      (Math_max 0 portfolio' :: vs, pos')
  end.

(** One iteration of the outer loop: [yearlyValues] and the tape position. *)
Definition mc_trial (rnd : nat -> number) (inputs : PortfolioInputs)
    (retirementYears : nat) (pos : nat) : list number * nat :=
  let '(acc, portfolio, pos1) :=
    mc_accumulation rnd inputs (yearsToRetirement inputs)
      (currentSavings inputs) pos in
  let '(ret, pos2) :=
    mc_retirement rnd inputs retirementYears portfolio
      (portfolio * withdrawalRate inputs) pos1 in
  (acc ++ ret, pos2).

(** [for (sim = 0; sim < simulations; sim++)]: [allResults] and
    [successCount]. *)
Fixpoint mc_trials (rnd : nat -> number) (inputs : PortfolioInputs)
    (retirementYears : nat) (n : nat) (pos : nat)
    : list (list number) * nat :=
  match n with
  | O => ([], O)
  | S n' =>
      let '(yearlyValues, pos') :=
        mc_trial rnd inputs retirementYears pos in
      let success :=
        match last_elem yearlyValues with
        | Some v => num_gt v 0
        | None => false
        end in
      let '(rest, cnt) := mc_trials rnd inputs retirementYears n' pos' in
      (yearlyValues :: rest, ((if success then 1 else 0) + cnt)%nat)
  end.

(** [Math.floor(simulations * p)], the index of a percentile. *)
Definition percentile_index (simulations : nat) (p : number) : nat :=
  Z.to_nat (Math_floor (of_nat simulations * p)).

(** [allResults.map(r => r[year]).sort((a, b) => a - b)]. *)
Definition valuesAtYear (allResults : list (list number)) (yr : nat)
    : list (option number) :=
  sort_numbers_undef (map (fun r => nth_error r yr) allResults).

(** [valuesAtYear[Math.floor(simulations * p)]]; [undefined] past the end
    or on an [undefined] element. *)
Definition percentile_at (allResults : list (list number))
    (simulations : nat) (p : number) (yr : nat) : option number :=
  match nth_error (valuesAtYear allResults yr)
          (percentile_index simulations p) with
  | Some v => v
  | None => None
  end.

(** [monthlyExpenses] is a parameter of the source that it never reads. *)
Definition runMonteCarloSimulation (rnd : nat -> number)
    (inputs : PortfolioInputs) (currentAge : nat) (monthlyExpenses : number)
    (simulations retirementYears : nat) : MonteCarloResult :=
  let '(allResults, successCount) :=
    mc_trials rnd inputs retirementYears simulations 0 in
  let totalYears := (yearsToRetirement inputs + retirementYears)%nat in
  let yrs := seq 0 totalYears in
  let endValues := sort_numbers_undef (map last_elem allResults) in
  mkMonteCarloResult
    (map (percentile_at allResults simulations 0.05) yrs)
    (map (percentile_at allResults simulations 0.25) yrs)
    (map (percentile_at allResults simulations 0.50) yrs)
    (map (percentile_at allResults simulations 0.75) yrs)
    (map (percentile_at allResults simulations 0.95) yrs)
    (if Nat.eqb simulations 0 then None
     else Some (of_nat successCount / of_nat simulations))
    (match nth_error endValues (percentile_index simulations 0.5) with
     | Some v => v
     | None => None
     end)
    (map (fun yr => (currentAge + yr + 1)%nat) yrs).

(** [calculateAffordableBudget] returns [{ monthly, annual }]. *)
Definition sgdToUsd : number := 0.74.

Record AffordableBudget := mkAffordableBudget {
  monthly : number;
  annual : number
}.

Definition calculateAffordableBudget (portfolioValue withdrawalRate : number)
    : AffordableBudget :=
  let annualWithdrawalSGD := portfolioValue * withdrawalRate in
  let monthlyWithdrawalSGD := annualWithdrawalSGD / 12 in
  let monthlyUSD := monthlyWithdrawalSGD * sgdToUsd in
  mkAffordableBudget monthlyUSD (monthlyUSD * 12).

Definition calculateFIRENumber (monthlyExpenses withdrawalRate : number)
    : number :=
  let annualExpenses := monthlyExpenses * 12 in
  (annualExpenses / withdrawalRate) / sgdToUsd.

(** ** components/CountryDetail.tsx: the runway arithmetic *)

Inductive BudgetTier := frugal | moderate | comfortable.

(** [country.costOfLiving.total], the only part of a [Country] the
    arithmetic reads. *)
Record CostTotal := mkCostTotal {
  total_frugal : number;
  total_moderate : number;
  total_comfortable : number
}.

Definition total_at (t : CostTotal) (selectedBudget : BudgetTier) : number :=
  match selectedBudget with
  | frugal => total_frugal t
  | moderate => total_moderate t
  | comfortable => total_comfortable t
  end.

Record Runway := mkRunway {
  runway_annualBudget : number;
  runway_annualWithdrawal : number;
  runway_yearsOfRunway : number
}.

(** The constants computed at the head of [CountryDetail]. *)
Definition CountryDetail_runway (costTotal : CostTotal)
    (selectedBudget : BudgetTier) (portfolioValue withdrawalRate : number)
    : Runway :=
  let monthlyBudget := total_at costTotal selectedBudget in
  let annualBudget := monthlyBudget * 12 in
  let sgdToUsd := 0.74 in
  let annualWithdrawal := portfolioValue * withdrawalRate * sgdToUsd in
  let yearsOfRunway := annualWithdrawal / annualBudget in
  mkRunway annualBudget annualWithdrawal yearsOfRunway.

(** ** cpf.ts: rates, contributions, interest, projection *)

Record CPFRates := mkCPFRates {
  rate_OA : number;
  rate_SA : number;
  rate_MA : number;
  rate_RA : number;
  EXTRA_FIRST_60K : number;
  EXTRA_55_PLUS_FIRST_30K : number
}.

Definition CPF_RATES : CPFRates :=
  mkCPFRates 0.025 0.04 0.04 0.04 0.01 0.01.

Record Allocation := mkAllocation {
  alloc_OA : number;
  alloc_SA : number;
  alloc_MA : number
}.

Record ContributionRates := mkContributionRates {
  rates_total : number;
  rates_employee : number;
  rates_employer : number;
  allocation : Allocation
}.

(** The four entries of [CPF_CONTRIBUTION_RATES]. *)
Definition UNDER_55 : ContributionRates :=
  mkContributionRates 0.37 0.20 0.17 (mkAllocation 0.6217 0.1622 0.2162).
Definition AGE_55_60 : ContributionRates :=
  mkContributionRates 0.295 0.15 0.145 (mkAllocation 0.4068 0.2373 0.3559).
Definition AGE_60_65 : ContributionRates :=
  mkContributionRates 0.205 0.095 0.11 (mkAllocation 0.1463 0.3902 0.4634).
Definition AGE_65_70 : ContributionRates :=
  mkContributionRates 0.155 0.075 0.08 (mkAllocation 0.0645 0.4516 0.4839).

Definition CPF_CONTRIBUTION_RATES : list ContributionRates :=
  [UNDER_55; AGE_55_60; AGE_60_65; AGE_65_70].

(** [CPF_LIMITS]. *)
Definition OA_WAGE_CEILING : number := 6800.
Definition ANNUAL_LIMIT : number := 37740.
Definition BHS_2024 : number := 68500.
Definition FRS_2024 : number := 205800.
Definition BRS_2024 : number := 102900.
Definition ERS_2024 : number := 308700.

(** [CPFBalances], also the shape [{ OA, SA, MA, total }] returned by
    [calculateCPFContribution] and [calculateCPFInterest]. *)
Record CPFBalances := mkCPFBalances {
  bal_OA : number;
  bal_SA : number;
  bal_MA : number;
  bal_total : number
}.

Record CPFProjection := mkCPFProjection {
  proj_age : nat;
  proj_year : nat;
  proj_OA : number;
  proj_SA : number;
  proj_MA : number;
  proj_RA : number;
  proj_total : number;
  proj_contributions : number;
  proj_interest : number
}.

(** The bracket chosen by the [if]/[else if] chain. *)
Definition rates_for_age (age : nat) : ContributionRates :=
  if (age <=? 55)%nat then UNDER_55
  else if (age <=? 60)%nat then AGE_55_60
  else if (age <=? 65)%nat then AGE_60_65
  else AGE_65_70.

Definition calculateCPFContribution (monthlySalary : number) (age : nat)
    : CPFBalances :=
  let cappedSalary := Math_min monthlySalary OA_WAGE_CEILING in
  let rates := rates_for_age age in
  let totalContribution := cappedSalary * rates_total rates in
  mkCPFBalances
    (totalContribution * alloc_OA (allocation rates))
    (totalContribution * alloc_SA (allocation rates))
    (totalContribution * alloc_MA (allocation rates))
    totalContribution.

Definition calculateCPFInterest (balances : CPFBalances) (age : nat)
    : CPFBalances :=
  let oaInterest := bal_OA balances * rate_OA CPF_RATES in
  let saInterest := bal_SA balances * rate_SA CPF_RATES in
  let maInterest := bal_MA balances * rate_MA CPF_RATES in
  let oaForExtra := Math_min (bal_OA balances) 20000 in
  let remainingFor60K := 60000 - oaForExtra in
  let samaForExtra :=
    Math_min (bal_SA balances + bal_MA balances) remainingFor60K in
  let saRatio :=
    if num_gt (bal_SA balances + bal_MA balances) 0
    then bal_SA balances / (bal_SA balances + bal_MA balances)
    else 0.5 in
  let saExtra := samaForExtra * saRatio in
  let maExtra := samaForExtra * (1 - saRatio) in
  let oaInterest := oaInterest + oaForExtra * EXTRA_FIRST_60K CPF_RATES in
  let saInterest := saInterest + saExtra * EXTRA_FIRST_60K CPF_RATES in
  let maInterest := maInterest + maExtra * EXTRA_FIRST_60K CPF_RATES in
  let '(oaInterest, saInterest, maInterest) :=
    if (55 <=? age)%nat then
      let oaFor30K := Math_min (bal_OA balances) 30000 in
      let remainingFor30K := 30000 - oaFor30K in
      let samaFor30K :=
        Math_min (bal_SA balances + bal_MA balances) remainingFor30K in
      let saExtra30K := samaFor30K * saRatio in
      let maExtra30K := samaFor30K * (1 - saRatio) in
      (oaInterest + oaFor30K * EXTRA_55_PLUS_FIRST_30K CPF_RATES,
       saInterest + saExtra30K * EXTRA_55_PLUS_FIRST_30K CPF_RATES,
       maInterest + maExtra30K * EXTRA_55_PLUS_FIRST_30K CPF_RATES)
    else (oaInterest, saInterest, maInterest) in
  mkCPFBalances oaInterest saInterest maInterest
    (oaInterest + saInterest + maInterest).

(** The mutable locals [OA], [SA], [MA], [RA] of [projectCPF]. *)
Record CPFState := mkCPFState {
  st_OA : number;
  st_SA : number;
  st_MA : number;
  st_RA : number
}.

(** The age-55 block at the head of an iteration:
    [if (age === 55 && year > 0) { RA = SA; SA = 0 }]. *)
Definition cpf_transfer (age yr : nat) (s : CPFState) : CPFState :=
  if (age =? 55)%nat && (0 <? yr)%nat
  then mkCPFState (st_OA s) 0 (st_MA s) (st_SA s)
  else s.

(** [annualContributions] of an iteration. *)
Definition cpf_annualContributions (monthlySalary : number)
    (age stopContributionsAtAge : nat) : CPFBalances :=
  if (age <? stopContributionsAtAge)%nat then
    let monthlyContrib := calculateCPFContribution monthlySalary age in
    mkCPFBalances (bal_OA monthlyContrib * 12) (bal_SA monthlyContrib * 12)
      (bal_MA monthlyContrib * 12) (bal_total monthlyContrib * 12)
  else mkCPFBalances 0 0 0 0.

(** One iteration of the loop of [projectCPF], in the order of the source:
    contributions, the age-55 block, interest, the record pushed, then the
    growth of the four balances. *)
Definition cpf_step (monthlySalary : number)
    (currentAge stopContributionsAtAge : nat) (yr : nat) (s : CPFState)
    : CPFProjection * CPFState :=
  let age := (currentAge + yr)%nat in
  let annualContributions :=
    cpf_annualContributions monthlySalary age stopContributionsAtAge in
  let s1 := cpf_transfer age yr s in
  let balances :=
    mkCPFBalances (st_OA s1) (st_SA s1) (st_MA s1)
      (st_OA s1 + st_SA s1 + st_MA s1) in
  let interest := calculateCPFInterest balances age in
  let rec :=
    mkCPFProjection age yr
      (Math_round (st_OA s1)) (Math_round (st_SA s1))
      (Math_round (st_MA s1)) (Math_round (st_RA s1))
      (Math_round (st_OA s1 + st_SA s1 + st_MA s1 + st_RA s1))
      (Math_round (bal_total annualContributions))
      (Math_round (bal_total interest)) in
  let s2 :=
    mkCPFState
      (st_OA s1 + (bal_OA annualContributions + bal_OA interest))
      (st_SA s1 + (bal_SA annualContributions + bal_SA interest))
      (st_MA s1 + (bal_MA annualContributions + bal_MA interest))
      (if (55 <=? age)%nat
       then st_RA s1 + st_RA s1 * rate_RA CPF_RATES
       else st_RA s1) in
  (rec, s2).

Fixpoint cpf_loop (monthlySalary : number)
    (currentAge stopContributionsAtAge : nat) (n yr : nat) (s : CPFState)
    : list CPFProjection :=
  match n with
  | O => []
  | S n' =>
      let '(rec, s') :=
        cpf_step monthlySalary currentAge stopContributionsAtAge yr s in
      rec :: cpf_loop monthlySalary currentAge stopContributionsAtAge
               n' (S yr) s'
  end.

Definition cpf_initial (currentBalances : CPFBalances) : CPFState :=
  mkCPFState (bal_OA currentBalances) (bal_SA currentBalances)
    (bal_MA currentBalances) 0.

(** [stopContributionsAtAge] has the default 55 in the source. *)
Definition projectCPF (currentBalances : CPFBalances)
    (monthlySalary : number) (currentAge yearsToProject : nat)
    (stopContributionsAtAge : nat) : list CPFProjection :=
  cpf_loop monthlySalary currentAge stopContributionsAtAge
    (S yearsToProject) 0 (cpf_initial currentBalances).

(** The values of [OA], [SA], [MA], [RA] on entry to iteration [yr]. *)
Fixpoint cpf_state_at (currentBalances : CPFBalances)
    (monthlySalary : number) (currentAge stopContributionsAtAge : nat)
    (yr : nat) : CPFState :=
  match yr with
  | O => cpf_initial currentBalances
  | S y =>
      snd (cpf_step monthlySalary currentAge stopContributionsAtAge y
             (cpf_state_at currentBalances monthlySalary currentAge
                stopContributionsAtAge y))
  end.

Definition getEffectiveCPFRate (balances : CPFBalances) (age : nat)
    : number :=
  let interest := calculateCPFInterest balances age in
  if num_gt (bal_total balances) 0
  then bal_total interest / bal_total balances
  else 0.04.

(** ** The historical backtest *)

(** S&P 500 annual total returns, 1928 to 2023. *)
Definition HISTORICAL_RETURNS : list number :=
  [0.4381; (-0.0830); (-0.2512); (-0.4384); (-0.0864); 0.4998; (-0.0119); 0.4674;
   0.3194; (-0.3534); 0.2928; (-0.0110); (-0.1067); (-0.1277); 0.1917; 0.2506;
   0.1903; 0.3582; (-0.0843); 0.0520; 0.0570; 0.1830; 0.3081; 0.2368;
   0.1815; (-0.0121); 0.5256; 0.3260; 0.0744; (-0.1046); 0.4372; 0.1206;
   0.0034; 0.2664; (-0.0881); 0.2261; 0.1642; 0.1240; (-0.0997); 0.2380;
   0.1081; (-0.0824); 0.0356; 0.1422; 0.1876; (-0.1431); (-0.2590); 0.3700;
   0.2383; (-0.0698); 0.0651; 0.1852; 0.3174; (-0.0470); 0.2042; 0.2234;
   0.0615; 0.3124; 0.1849; 0.0581; 0.1654; 0.3148; (-0.0306); 0.3023;
   0.0749; 0.0997; 0.0133; 0.3720; 0.2268; 0.3310; 0.2834; 0.2089;
   (-0.0903); (-0.1185); (-0.2197); 0.2836; 0.1074; 0.0483; 0.1561; 0.0548;
   (-0.3655); 0.2594; 0.1482; 0.0210; 0.1589; 0.3215; 0.1352; 0.0138;
   0.1177; 0.2161; (-0.0423); 0.3121; 0.1840; 0.2847; (-0.1811); 0.2606].

(** Annual inflation rates, 1928 to 2023. *)
Definition HISTORICAL_INFLATION : list number :=
  [(-0.0116); 0.0058; (-0.0640); (-0.0932); (-0.1027); 0.0076; 0.0199; 0.0299;
   0.0121; 0.0241; (-0.0178); 0.0000; 0.0096; 0.0993; 0.0929; 0.0316;
   0.0211; 0.0225; 0.1802; 0.0888; 0.0271; (-0.0180); 0.0579; 0.0587;
   0.0088; 0.0062; (-0.0074); 0.0037; 0.0286; 0.0302; 0.0176; 0.0150;
   0.0148; 0.0067; 0.0122; 0.0165; 0.0097; 0.0192; 0.0335; 0.0304;
   0.0472; 0.0611; 0.0549; 0.0336; 0.0341; 0.0880; 0.1220; 0.0701;
   0.0481; 0.0677; 0.0903; 0.1331; 0.1240; 0.0894; 0.0387; 0.0380;
   0.0395; 0.0377; 0.0113; 0.0441; 0.0442; 0.0465; 0.0612; 0.0306;
   0.0290; 0.0275; 0.0267; 0.0254; 0.0332; 0.0170; 0.0161; 0.0268;
   0.0339; 0.0155; 0.0238; 0.0188; 0.0326; 0.0342; 0.0254; 0.0408;
   0.0009; 0.0272; 0.0150; 0.0296; 0.0174; 0.0150; 0.0076; 0.0073;
   0.0207; 0.0211; 0.0191; 0.0231; 0.0123; 0.0700; 0.0650; 0.0340].

Record HistoricalSequence := mkHistoricalSequence {
  startYear : nat;
  endYear : nat;
  finalValue : number;
  lowestValue : number;
  lowestYear : nat;
  survived : bool;
  yearsDepleted : option nat;
  realReturns : list number
}.

Record HistoricalBacktestResult := mkHistoricalBacktestResult {
  sequences : list HistoricalSequence;
  hb_successRate : option number;
  worstSequence : option HistoricalSequence;
  bestSequence : option HistoricalSequence;
  medianFinalValue : option number;
  averageFinalValue : option number;
  percentSurvived30Years : option number
}.

(** [HISTORICAL_RETURNS[returnIdx]].  Every read the backtest makes is
    inside the array (lemma [backtest_reads_in_range]); the default is never
    returned. *)
Definition data_at (data : list number) (returnIdx : nat) : number :=
  nth returnIdx data 0.

(** The mutable locals of one pass of the outer loop. *)
Record SeqState := mkSeqState {
  ss_portfolio : number;
  ss_withdrawal : number;
  ss_lowestValue : number;
  ss_lowestYear : nat;
  ss_yearsDepleted : option nat;
  ss_realReturns : list number
}.

(** One iteration of the accumulation loop of the backtest. *)
Definition hb_accumulation_step (inputs : PortfolioInputs)
    (startIdx startYear : nat) (yr : nat) (s : SeqState) : SeqState :=
  let returnIdx := (startIdx + yr)%nat in
  let nominalReturn := data_at HISTORICAL_RETURNS returnIdx in
  let inflation := data_at HISTORICAL_INFLATION returnIdx in
  let realReturn := (1 + nominalReturn) / (1 + inflation) - 1 in
  let portfolio :=
    ss_portfolio s * (1 + nominalReturn) + monthlyContribution inputs * 12 in
  let low := num_lt portfolio (ss_lowestValue s) in
  mkSeqState portfolio (ss_withdrawal s)
    (if low then portfolio else ss_lowestValue s)
    (if low then (startYear + yr)%nat else ss_lowestYear s)
    (ss_yearsDepleted s)
    (ss_realReturns s ++ [realReturn]).

Fixpoint hb_accumulation (inputs : PortfolioInputs) (startIdx startYear : nat)
    (n yr : nat) (s : SeqState) : SeqState :=
  match n with
  | O => s
  | S n' =>
      hb_accumulation inputs startIdx startYear n' (S yr)
        (hb_accumulation_step inputs startIdx startYear yr s)
  end.

(** One iteration of the retirement loop of the backtest, past its
    [if (returnIdx >= HISTORICAL_RETURNS.length) break]. *)
Definition hb_retirement_step (inputs : PortfolioInputs)
    (startIdx startYear : nat) (yr : nat) (s : SeqState) : SeqState :=
  let returnIdx := (startIdx + yearsToRetirement inputs + yr)%nat in
  let nominalReturn := data_at HISTORICAL_RETURNS returnIdx in
  let inflation := data_at HISTORICAL_INFLATION returnIdx in
  let realReturn := (1 + nominalReturn) / (1 + inflation) - 1 in
  let portfolio := ss_portfolio s * (1 + nominalReturn) - ss_withdrawal s in
  let withdrawal := ss_withdrawal s * (1 + inflation) in
  let low := num_lt portfolio (ss_lowestValue s) && num_gt portfolio 0 in
  let depleted :=
    num_le portfolio 0 &&
    match ss_yearsDepleted s with None => true | Some _ => false end in
  mkSeqState (if depleted then 0 else portfolio) withdrawal
    (if low then portfolio else ss_lowestValue s)
    (if low then (startYear + yearsToRetirement inputs + yr)%nat
     else ss_lowestYear s)
    (if depleted then Some yr else ss_yearsDepleted s)
    (ss_realReturns s ++ [realReturn]).

Fixpoint hb_retirement (inputs : PortfolioInputs) (startIdx startYear : nat)
    (n yr : nat) (s : SeqState) : SeqState :=
  match n with
  | O => s
  | S n' =>
      if (length HISTORICAL_RETURNS <=?
            startIdx + yearsToRetirement inputs + yr)%nat
      then s
      else hb_retirement inputs startIdx startYear n' (S yr)
             (hb_retirement_step inputs startIdx startYear yr s)
  end.

(** The locals after the accumulation loop and the computation of the
    first withdrawal. *)
Definition hb_at_retirement (inputs : PortfolioInputs) (startIdx : nat)
    : SeqState :=
  let startYear := (1928 + startIdx)%nat in
  let s0 :=
    mkSeqState (currentSavings inputs) 0 (currentSavings inputs) startYear
      None [] in
  let s1 :=
    hb_accumulation inputs startIdx startYear (yearsToRetirement inputs) 0
      s0 in
  mkSeqState (ss_portfolio s1) (ss_portfolio s1 * withdrawalRate inputs)
    (ss_lowestValue s1) (ss_lowestYear s1) (ss_yearsDepleted s1)
    (ss_realReturns s1).

(** The locals after [k] iterations of the retirement loop. *)
Definition hb_retirement_state (inputs : PortfolioInputs) (startIdx : nat)
    (k : nat) : SeqState :=
  hb_retirement inputs startIdx (1928 + startIdx) k 0
    (hb_at_retirement inputs startIdx).

(** The body of the outer loop: the sequence pushed for [startIdx]. *)
Definition hb_sequence (inputs : PortfolioInputs) (retirementYears : nat)
    (startIdx : nat) : HistoricalSequence :=
  let totalYearsNeeded := (yearsToRetirement inputs + retirementYears)%nat in
  let startYear := (1928 + startIdx)%nat in
  let s := hb_retirement_state inputs startIdx retirementYears in
  mkHistoricalSequence startYear (startYear + totalYearsNeeded - 1)
    (Math_max 0 (ss_portfolio s)) (Math_max 0 (ss_lowestValue s))
    (ss_lowestYear s) (num_gt (ss_portfolio s) 0) (ss_yearsDepleted s)
    (ss_realReturns s).

(** [finalValues.reduce((a, b) => a + b, 0)]. *)
Definition sum_numbers (l : list number) : number :=
  fold_left Qplus l 0.

(** [currentAge] is a parameter of the source that it never reads;
    [retirementYears] has the default 30.  [maxStartYear] may be negative,
    and then the outer loop does not run. *)
Definition runHistoricalBacktest (inputs : PortfolioInputs) (currentAge : nat)
    (retirementYears : nat) : HistoricalBacktestResult :=
  let totalYearsNeeded := (yearsToRetirement inputs + retirementYears)%nat in
  let maxStartYear :=
    (Z.of_nat (length HISTORICAL_RETURNS) - Z.of_nat totalYearsNeeded)%Z in
  let sequences :=
    map (hb_sequence inputs retirementYears)
      (seq 0 (Z.to_nat maxStartYear)) in
  let survivedSequences := filter survived sequences in
  let successRate :=
    if (length sequences =? 0)%nat then None
    else Some (of_nat (length survivedSequences)
               / of_nat (length sequences)) in
  let sortedByFinal := sort_by finalValue sequences in
  let worstSequence := nth_error sortedByFinal 0 in
  let bestSequence := last_elem sortedByFinal in
  let finalValues := sort_numbers (map finalValue sequences) in
  let medianFinalValue :=
    nth_error finalValues (Nat.div (length finalValues) 2) in
  let averageFinalValue :=
    if (length finalValues =? 0)%nat then None
    else Some (sum_numbers finalValues / of_nat (length finalValues)) in
  mkHistoricalBacktestResult sequences successRate worstSequence
    bestSequence medianFinalValue averageFinalValue successRate.

(** The iteration of [calculateDrawdown] that finds the portfolio depleted
    and leaves the loop: the same updates of [portfolioValue] and
    [currentWithdrawal] as [drawdown_loop], returning the [year] of the
    [break], or [None] when the loop runs to its end. *)
Fixpoint depletion_year (expRet inflRate : number) (n yr : nat)
    (pv currentWithdrawal : number) : option nat :=
  match n with
  | O => None
  | S n' =>
      let returns := pv * expRet in
      let withdrawal := if Nat.eqb yr 0 then 0 else currentWithdrawal in
      let pv' := pv + returns - withdrawal in
      if num_le pv' 0 then Some yr
      else depletion_year expRet inflRate n' (S yr) pv'
             (currentWithdrawal * (1 + inflRate))
  end.

(** A record of the drawdown phase whose five amounts are all zero. *)
Definition all_zero (r : SimulationResult) : Prop :=
  portfolioValue r == 0 /\ contribution r == 0 /\ returns r == 0 /\
  withdrawal r == 0 /\ inflationAdjustedValue r == 0.

(** The value of [P] compounding at rate [r] for [n] years with a
    contribution [C] added at the end of each of the years 1 to [n - 1]
    (year 0 has none): [P (1+r)^n + C ((1+r)^(n-1) - 1) / r]. *)
Definition compounded_value (P C r : number) (n : nat) : number :=
  P * (1 + r) ^ Z.of_nat n + C * (((1 + r) ^ Z.of_nat (n - 1) - 1) / r).

(** The sum of the three allocation ratios of a bracket. *)
Definition allocation_sum (r : ContributionRates) : number :=
  alloc_OA (allocation r) + alloc_SA (allocation r) + alloc_MA (allocation r).

(** The five ranks of [runMonteCarloSimulation]. *)
Definition percentile_ranks : list number := [0.05; 0.25; 0.50; 0.75; 0.95].

(** The value iteration [k] of the retirement loop of the backtest assigns
    to [portfolio], before the depletion test of that iteration. *)
Definition hb_portfolio_at (inputs : PortfolioInputs) (startIdx k : nat)
    : number :=
  let s := hb_retirement_state inputs startIdx k in
  ss_portfolio s
  * (1 + data_at HISTORICAL_RETURNS
           (startIdx + yearsToRetirement inputs + k))
  - ss_withdrawal s.

(** What the retirement loop of the backtest keeps true of its locals:
    until depletion the portfolio is positive (or it and the withdrawal
    are both 0), afterwards it is never positive again. *)
Definition hb_inv (s : SeqState) : Prop :=
  match ss_yearsDepleted s with
  | None => 0 < ss_portfolio s \/ (ss_portfolio s == 0 /\ ss_withdrawal s == 0)
  | Some _ => ss_portfolio s <= 0 /\ 0 <= ss_withdrawal s
  end.

(** The history of the retirement loop of the backtest after [k]
    iterations: either no iteration so far has left the portfolio at or
    below 0, or [yearsDepleted] holds the first one that did, the portfolio
    was set to 0 then and has not been positive since, and the lowest value
    and its year are still those held on entry to that iteration. *)
Definition hb_history (inputs : PortfolioInputs) (startIdx k : nat) : Prop :=
  let st := hb_retirement_state inputs startIdx in
  hb_inv (st k) /\
  match ss_yearsDepleted (st k) with
  | None => forall j, (j < k)%nat -> 0 < hb_portfolio_at inputs startIdx j
  | Some d =>
      (d < k)%nat /\ hb_portfolio_at inputs startIdx d <= 0 /\
      (forall j, (j < d)%nat -> 0 < hb_portfolio_at inputs startIdx j) /\
      ss_portfolio (st (S d)) = 0 /\
      (forall j, (d < j <= k)%nat -> ss_portfolio (st j) <= 0) /\
      ss_lowestValue (st k) = ss_lowestValue (st d) /\
      ss_lowestYear (st k) = ss_lowestYear (st d)
  end.

(** The four balances of [projectCPF] are non-negative. *)
Definition cpf_nonneg (s : CPFState) : Prop :=
  0 <= st_OA s /\ 0 <= st_SA s /\ 0 <= st_MA s /\ 0 <= st_RA s.

(** [saRatio] of [calculateCPFInterest]. *)
Definition saRatio_of (balances : CPFBalances) : number :=
  if num_gt (bal_SA balances + bal_MA balances) 0
  then bal_SA balances / (bal_SA balances + bal_MA balances)
  else 0.5.

(** [estimateCPFLifePayout] returns [{ standard, basic, escalating }]. *)
Record CPFLifePayout := mkCPFLifePayout {
  payout_standard : number;
  payout_basic : number;
  payout_escalating : number
}.

Definition estimateCPFLifePayout (raBalance : number) : CPFLifePayout :=
  let standardRate := 0.0055 in
  let basicRate := 0.0048 in
  let escalatingRate := 0.0045 in
  mkCPFLifePayout (Math_round (raBalance * standardRate))
    (Math_round (raBalance * basicRate))
    (Math_round (raBalance * escalatingRate)).

(** ** components/CountryDetail.tsx: the runway shown *)

(** The runway printed: [Math.round(yearsOfRunway)], or the infinity sign
    ([None]) when [yearsOfRunway >= 100]. *)
Definition CountryDetail_runway_shown (yearsOfRunway : number)
    : option number :=
  if num_ge yearsOfRunway 100 then None else Some (Math_round yearsOfRunway).

(** ** components/GlobeVisualization.tsx: the feasibility of a country *)

(** The channels of the colour [getColorForScore] formats as
    [rgb(r, g, b)]. *)
Definition getColorForScore (score : number) : number * number * number :=
  if num_lt score 0.4 then
    (239, Math_round (68 + (score / 0.4) * 100), 68)
  else if num_lt score 0.7 then
    (239, Math_round (168 + ((score - 0.4) / 0.3) * 87), 68)
  else
    (Math_round (239 - ((score - 0.7) / 0.3) * 205),
     Math_round (255 - ((score - 0.7) / 0.3) * 50),
     Math_round (68 + ((score - 0.7) / 0.3) * 60)).

(** The fields [countryData] adds to a country. *)
Record GlobeDatum := mkGlobeDatum {
  gd_score : number;
  gd_yearsRunway : number;
  gd_affordable : bool;
  gd_color : number * number * number;
  gd_size : number
}.

(** The body of [countries.map] in [countryData]; [withdrawalRate] is a
    prop the computation does not read. *)
Definition globe_countryData (costTotal : CostTotal)
    (selectedBudget : BudgetTier) (portfolioValue : number) : GlobeDatum :=
  let sgdToUsd := 0.74 in
  let portfolioInUSD := portfolioValue * sgdToUsd in
  let countryCost := total_at costTotal selectedBudget in
  let annualCost := countryCost * 12 in
  let yearsRunway := portfolioInUSD / annualCost in
  let score := Math_min (yearsRunway / 25) 1 in
  mkGlobeDatum score yearsRunway (num_ge yearsRunway 25)
    (getColorForScore score) (score * 0.8 + 0.3).

(** ** App.tsx: the values derived from the engine *)

(** [Array.prototype.find]. *)
Fixpoint find_first {A : Type} (p : A -> bool) (l : list A) : option A :=
  match l with
  | [] => None
  | x :: l' => if p x then Some x else find_first p l'
  end.

(** [cpfProjection] and the [withdrawable] amount of [cpfAtRetirement]:
    [atRetirement?.total || 0]. *)
Definition App_cpfProjection (cpfBalances : CPFBalances)
    (monthlySalary : number) (currentAge yearsToRetirement : nat)
    : list CPFProjection :=
  let retirementAge := (currentAge + yearsToRetirement)%nat in
  projectCPF cpfBalances monthlySalary currentAge 40 retirementAge.

Definition App_cpfWithdrawable (cpfBalances : CPFBalances)
    (monthlySalary : number) (currentAge yearsToRetirement : nat) : number :=
  match find_first
          (fun p => Nat.eqb (proj_age p) (currentAge + yearsToRetirement))
          (App_cpfProjection cpfBalances monthlySalary currentAge
             yearsToRetirement) with
  | Some atRetirement => proj_total atRetirement
  | None => 0
  end.

(** [combinedPortfolio]. *)
Definition App_combinedPortfolio (includeCPF : bool)
    (portfolioAtRetirement withdrawable : number) : number :=
  if includeCPF then portfolioAtRetirement + withdrawable
  else portfolioAtRetirement.

(** The [years] of an entry of [runwayData] in [src/App.tsx]. *)
Definition App_runwayYears (costTotal : CostTotal)
    (selectedBudget : BudgetTier) (portfolioToUse withdrawalRate : number)
    : number :=
  let sgdToUsd := 0.74 in
  let annualWithdrawal := portfolioToUse * withdrawalRate * sgdToUsd in
  let annualBudget := total_at costTotal selectedBudget * 12 in
  let years := annualWithdrawal / annualBudget in
  Math_min years 100.

(** ** The per-country projection ([CountryProjection]) *)

Record YearlyData := mkYearlyData {
  yd_age : nat;
  yd_year : nat;
  yd_portfolio : number;
  yd_withdrawal : number;
  yd_returns : number;
  yd_spending : number
}.

Fixpoint projection_fill (retirementAge : nat) (n remaining : nat)
    : list YearlyData :=
  match n with
  | O => []
  | S n' =>
      mkYearlyData (retirementAge + remaining) remaining 0 0 0 0
      :: projection_fill retirementAge n' (S remaining)
  end.

(** The loop of [projection]; [n = years + 1 - yr] iterations are left. *)
Fixpoint projection_loop (retirementReturn inflationRate : number)
    (retirementAge : nat) (n yr : nat) (portfolio currentSpending : number)
    : list YearlyData :=
  match n with
  | O => []
  | S n' =>
      let returns := portfolio * retirementReturn in
      let withdrawal := if Nat.eqb yr 0 then 0 else currentSpending in
      let rec :=
        mkYearlyData (retirementAge + yr) yr
          (Math_max 0 (Math_round portfolio)) (Math_round withdrawal)
          (Math_round returns) (Math_round currentSpending) in
      let portfolio' := portfolio + returns - withdrawal in
      let currentSpending' := currentSpending * (1 + inflationRate) in
      if num_le portfolio' 0
      then rec :: projection_fill retirementAge n' (S yr)
      else rec :: projection_loop retirementReturn inflationRate
                    retirementAge n' (S yr) portfolio' currentSpending'
  end.

Definition CountryProjection_projection (costTotal : CostTotal)
    (selectedBudget : BudgetTier) (portfolioAtRetirement : number)
    (retirementAge : nat) (expectedReturn inflationRate : number)
    : list YearlyData :=
  let sgdToUsd := 0.74 in
  let monthlyBudget := total_at costTotal selectedBudget in
  let annualBudgetUSD := monthlyBudget * 12 in
  let currentSpending := annualBudgetUSD / sgdToUsd in
  let retirementReturn := expectedReturn - 0.01 in
  let years := 50%nat in
  projection_loop retirementReturn inflationRate retirementAge (S years) 0
    portfolioAtRetirement currentSpending.

(** Linear goals with divisions by literals. *)
Ltac lra_div :=
  unfold Qdiv;
  repeat match goal with
         | |- context [Qinv ?c] =>
             let v := eval vm_compute in (Qinv c) in
             change (Qinv c) with v
         end;
  change (inject_Z 0) with 0; change (inject_Z 255) with 255; lra.

(** A record of [CountryProjection] shows the rounded amounts of a record
    of [calculateDrawdown]. *)
Definition projection_matches (r : SimulationResult) (y : YearlyData)
    : Prop :=
  yd_age y = age r /\ yd_year y = year r /\
  yd_portfolio y = Math_round (portfolioValue r) /\
  yd_withdrawal y = Math_round (withdrawal r) /\
  yd_returns y = Math_round (returns r).

(** How many elements of an array are below, or at most, a value. *)
Fixpoint count_lt (v : number) (l : list number) : nat :=
  match l with
  | [] => 0
  | x :: l' => ((if num_lt x v then 1 else 0) + count_lt v l')%nat
  end.

Fixpoint count_le (v : number) (l : list number) : nat :=
  match l with
  | [] => 0
  | x :: l' => ((if num_le x v then 1 else 0) + count_le v l')%nat
  end.

(** Two results of a read that may be [undefined] denote the same
    number, or are both [undefined]. *)
Definition same_number (a b : option number) : Prop :=
  match a, b with
  | Some x, Some y => x == y
  | None, None => True
  | _, _ => False
  end.

(** The real return recorded for the year of index [i] of the data:
    [(1 + nominalReturn) / (1 + inflation) - 1]. *)
Definition real_return (i : nat) : number :=
  (1 + data_at HISTORICAL_RETURNS i) / (1 + data_at HISTORICAL_INFLATION i)
  - 1.

(** * Properties *)

(** ** Numbers *)

Lemma num_le_true (a b : number) : num_le a b = true <-> a <= b.
Proof. apply Qle_bool_iff. Qed.

Lemma num_le_false (a b : number) : num_le a b = false <-> b < a.
Proof.
  unfold num_le. rewrite <- Bool.not_true_iff_false, Qle_bool_iff.
  split; intro H; [apply Qnot_le_lt | apply Qlt_not_le]; exact H.
Qed.

Lemma num_gt_true (a b : number) : num_gt a b = true <-> b < a.
Proof.
  unfold num_gt. rewrite Bool.negb_true_iff. apply (num_le_false a b).
Qed.

Lemma num_gt_false (a b : number) : num_gt a b = false <-> a <= b.
Proof.
  unfold num_gt. rewrite Bool.negb_false_iff. apply Qle_bool_iff.
Qed.

Lemma num_lt_true (a b : number) : num_lt a b = true <-> a < b.
Proof.
  unfold num_lt. rewrite Bool.negb_true_iff. apply (num_le_false b a).
Qed.

Lemma Math_max_0_nonneg (x : number) : 0 <= Math_max 0 x.
Proof.
  unfold Math_max. destruct (Qle_bool 0 x) eqn:E.
  - apply Qle_bool_iff. exact E.
  - apply Qle_refl.
Qed.

Lemma Math_max_0_of_nonneg (x : number) : 0 <= x -> Math_max 0 x = x.
Proof.
  intro H. unfold Math_max. apply Qle_bool_iff in H. now rewrite H.
Qed.

Lemma Math_max_0_of_nonpos (x : number) : x <= 0 -> Math_max 0 x == 0.
Proof.
  intro H. unfold Math_max. destruct (Qle_bool 0 x) eqn:E.
  - apply Qle_bool_iff in E. apply Qle_antisym; assumption.
  - reflexivity.
Qed.

Lemma Math_min_le_l (a b : number) : Math_min a b <= a.
Proof.
  unfold Math_min. destruct (Qle_bool a b) eqn:E.
  - apply Qle_refl.
  - apply (num_le_false a b) in E. apply Qlt_le_weak. exact E.
Qed.

Lemma Math_min_le_r (a b : number) : Math_min a b <= b.
Proof.
  unfold Math_min. destruct (Qle_bool a b) eqn:E.
  - apply Qle_bool_iff. exact E.
  - apply Qle_refl.
Qed.

Lemma Math_min_glb (a b c : number) : c <= a -> c <= b -> c <= Math_min a b.
Proof. intros Ha Hb. unfold Math_min. now destruct (Qle_bool a b). Qed.

(** ** The runway arithmetic *)

(** C8. For a portfolio of 1,000,000 and a withdrawal rate of 0.04 the
    annual withdrawal in the comparison currency is exactly 29,600, through
    [CountryDetail] and through [calculateAffordableBudget]; against a
    tier that costs 1,000 a month (12,000 a year) the runway is
    29,600 / 12,000, which is 2.47 to two decimals. *)
Theorem runway_example (costTotal : CostTotal) (selectedBudget : BudgetTier)
    (Hcost : total_at costTotal selectedBudget == 1000) :
  let r := CountryDetail_runway costTotal selectedBudget 1000000 0.04 in
  runway_annualWithdrawal r == 1000000 * 0.04 * 0.74 /\
  runway_annualWithdrawal r == 29600 /\
  runway_annualBudget r == 12000 /\
  runway_yearsOfRunway r == 29600 / 12000 /\
  2.465 <= runway_yearsOfRunway r < 2.475 /\
  annual (calculateAffordableBudget 1000000 0.04) == 29600.
Proof.
  cbn -[Qmult Qdiv Qle Qlt]. rewrite Hcost.
  repeat split; try reflexivity; vm_compute; congruence.
Qed.

Lemma runway_example_witness :
  total_at (mkCostTotal 1000 1500 2500) frugal == 1000 /\
  runway_yearsOfRunway
    (CountryDetail_runway (mkCostTotal 1000 1500 2500) frugal 1000000 0.04)
  == 29600 / 12000.
Proof.
  split; [reflexivity |].
  apply (runway_example (mkCostTotal 1000 1500 2500) frugal).
  reflexivity.
Defined.

(** ** The allocation ratios *)

(** C6, as the source has it: the ratios are written to four decimals and
    those of the bracket 60-65 add up to 0.9999 (those of the bracket up to
    55 to 1.0001), more than 1e-6 away from 1. *)
Lemma allocation_sum_not_within_1e6 :
  ~ (forall r, In r CPF_CONTRIBUTION_RATES ->
       Qabs (allocation_sum r - 1) <= 0.000001).
Proof.
  intro H. specialize (H AGE_60_65).
  assert (Hin : In AGE_60_65 CPF_CONTRIBUTION_RATES)
    by (right; right; left; reflexivity).
  specialize (H Hin). vm_compute in H. apply H. reflexivity.
Qed.

(** C6, amended: in each of the brackets 55-60, 60-65 and 65-70 the three
    ratios add up to 1 within 1e-4: exactly 1 for 55-60 and 65-70, and
    0.9999 for 60-65. *)
Theorem allocation_sum_within_1e4 :
  allocation_sum AGE_55_60 == 1 /\
  allocation_sum AGE_60_65 == 0.9999 /\
  allocation_sum AGE_65_70 == 1 /\
  Forall (fun r => Qabs (allocation_sum r - 1) <= 0.0001)
    [AGE_55_60; AGE_60_65; AGE_65_70].
Proof.
  repeat split; try reflexivity.
  repeat constructor; vm_compute; congruence.
Qed.

(** ** Accumulation *)

Lemma Qpower_of_nat_succ (a : number) (n : nat) :
  a ^ Z.of_nat (S n) == a * a ^ Z.of_nat n.
Proof.
  rewrite Nat2Z.inj_succ, <- Z.add_1_l.
  rewrite Qpower_plus' by lia. reflexivity.
Qed.

Lemma last_cons_ne {A : Type} (x : A) (l : list A) (d : A) :
  l <> [] -> last (x :: l) d = last l d.
Proof. destruct l; [congruence | reflexivity]. Qed.

Lemma accumulation_loop_length inputs currentAge n yr pv ci :
  length (accumulation_loop inputs currentAge n yr pv ci) = n.
Proof.
  revert yr pv ci. induction n as [|n IH]; intros; cbn; [|rewrite IH];
    reflexivity.
Qed.

Lemma calculateAccumulation_length inputs currentAge :
  length (calculateAccumulation inputs currentAge)
  = S (yearsToRetirement inputs).
Proof. apply accumulation_loop_length. Qed.

(** The record of iteration [yr + k] of the accumulation loop. *)
Lemma accumulation_loop_nth inputs currentAge n yr pv ci k r :
  nth_error (accumulation_loop inputs currentAge n yr pv ci) k = Some r ->
  year r = (yr + k)%nat /\ age r = (currentAge + (yr + k))%nat /\
  withdrawal r = 0 /\
  contribution r
  = (if Nat.eqb (yr + k) 0 then 0 else monthlyContribution inputs * 12).
Proof.
  revert yr pv ci k. induction n as [|n IH]; intros yr pv ci k H.
  - destruct k; discriminate.
  - destruct k as [|k]; cbn in H.
    + injection H as <-. cbn. rewrite Nat.add_0_r. auto.
    + apply IH in H. rewrite Nat.add_succ_r. exact H.
Qed.

(** After the first year the loop adds the same contribution every year:
    the last snapshot of [S n] iterations is the geometric closed form. *)
Lemma accumulation_loop_last inputs currentAge n yr pv ci d :
  (1 <= yr)%nat -> ~ expectedReturn inputs == 0 ->
  portfolioValue (last (accumulation_loop inputs currentAge (S n) yr pv ci) d)
  == pv * (1 + expectedReturn inputs) ^ Z.of_nat n
     + monthlyContribution inputs * 12
       * (((1 + expectedReturn inputs) ^ Z.of_nat n - 1)
          / expectedReturn inputs).
Proof.
  intros Hyr Hr. revert yr pv ci Hyr.
  induction n as [|n IH]; intros yr pv ci Hyr.
  - cbn. field. exact Hr.
  - change (accumulation_loop inputs currentAge (S (S n)) yr pv ci)
      with (mkSimulationResult yr (currentAge + yr) pv
              (if Nat.eqb yr 0 then 0 else monthlyContribution inputs * 12)
              (pv * expectedReturn inputs) 0
              (pv / (ci * (1 + inflationRate inputs)))
            :: accumulation_loop inputs currentAge (S n) (S yr)
                 (pv + (if Nat.eqb yr 0 then 0
                        else monthlyContribution inputs * 12)
                  + pv * expectedReturn inputs)
                 (ci * (1 + inflationRate inputs))).
    rewrite last_cons_ne by (cbn; discriminate).
    rewrite IH by lia.
    destruct yr as [|yr]; [lia|]. cbn [Nat.eqb].
    rewrite (Qpower_of_nat_succ _ n). field. exact Hr.
Qed.

(** The portfolio at retirement in closed form, for every horizon and
    every non-zero rate of return. *)
Lemma portfolioAtRetirement_closed_form inputs currentAge monthlyExpenses
    retirementYears :
  ~ expectedReturn inputs == 0 ->
  portfolioAtRetirement
    (calculateFIRE inputs currentAge monthlyExpenses retirementYears)
  == compounded_value (currentSavings inputs)
       (monthlyContribution inputs * 12) (expectedReturn inputs)
       (yearsToRetirement inputs).
Proof.
  intro Hr. unfold calculateFIRE, compounded_value. cbn [portfolioAtRetirement].
  unfold calculateAccumulation.
  destruct (yearsToRetirement inputs) as [|n].
  - cbn. field. exact Hr.
  - change (accumulation_loop inputs currentAge (S (S n)) 0
              (currentSavings inputs) 1)
      with (mkSimulationResult 0 (currentAge + 0) (currentSavings inputs) 0
              (currentSavings inputs * expectedReturn inputs) 0
              (currentSavings inputs / (1 * (1 + inflationRate inputs)))
            :: accumulation_loop inputs currentAge (S n) 1
                 (currentSavings inputs + 0
                  + currentSavings inputs * expectedReturn inputs)
                 (1 * (1 + inflationRate inputs))).
    rewrite last_cons_ne by (cbn; discriminate).
    rewrite accumulation_loop_last by (auto; lia).
    rewrite (Qpower_of_nat_succ _ n).
    replace (S n - 1)%nat with n by lia. field. exact Hr.
Qed.


(** ** Drawdown *)

Lemma depleted_fill_all_zero startAge n remaining :
  Forall all_zero (depleted_fill startAge n remaining).
Proof.
  revert remaining. induction n as [|n IH]; intro remaining; cbn.
  - constructor.
  - constructor; [|apply IH]. repeat split; reflexivity.
Qed.

Lemma depleted_fill_length startAge n remaining :
  length (depleted_fill startAge n remaining) = n.
Proof.
  revert remaining. induction n as [|n IH]; intro; cbn; [|rewrite IH];
    reflexivity.
Qed.

Lemma drawdown_loop_length expRet inflRate startAge n yr pv cw ci :
  length (drawdown_loop expRet inflRate startAge n yr pv cw ci) = n.
Proof.
  revert yr pv cw ci. induction n as [|n IH]; intros; cbn; [reflexivity|].
  destruct (num_le _ 0); cbn; [rewrite depleted_fill_length | rewrite IH];
    reflexivity.
Qed.

(** No record of the drawdown carries a negative value. *)
Lemma drawdown_loop_nonneg expRet inflRate startAge n yr pv cw ci :
  Forall (fun r => 0 <= portfolioValue r)
    (drawdown_loop expRet inflRate startAge n yr pv cw ci).
Proof.
  revert yr pv cw ci. induction n as [|n IH]; intros; cbn; [constructor|].
  destruct (num_le _ 0); constructor; cbn;
    try apply Math_max_0_nonneg; [|apply IH].
  eapply Forall_impl; [|apply depleted_fill_all_zero].
  intros r [H _]. rewrite H. apply Qle_refl.
Qed.

(** Entered with a positive portfolio, the loop pushes records of positive
    value and then, from the depletion on, all-zero records only. *)
Lemma drawdown_loop_shape expRet inflRate startAge n yr pv cw ci :
  0 < pv ->
  exists l1 l2,
    drawdown_loop expRet inflRate startAge n yr pv cw ci = l1 ++ l2 /\
    Forall (fun r => 0 < portfolioValue r) l1 /\ Forall all_zero l2.
Proof.
  revert yr pv cw ci. induction n as [|n IH]; intros yr pv cw ci Hpv.
  - exists [], []. repeat split; constructor.
  - cbn. destruct (num_le _ 0) eqn:E.
    + eexists [_], _. split; [reflexivity|]. split.
      * constructor; [|constructor]. cbn.
        rewrite Math_max_0_of_nonneg by (apply Qlt_le_weak; exact Hpv).
        exact Hpv.
      * apply depleted_fill_all_zero.
    + apply num_le_false in E.
      destruct (IH (S yr) _ (cw * (1 + inflRate))
                  (ci * (1 + inflRate)) E) as (l1 & l2 & -> & H1 & H2).
      eexists (_ :: l1), l2. split; [reflexivity|]. split; [|exact H2].
      constructor; [|exact H1]. cbn.
      rewrite Math_max_0_of_nonneg by (apply Qlt_le_weak; exact Hpv).
      exact Hpv.
Qed.

Lemma nth_error_Forall {A : Type} (P : A -> Prop) (l : list A) i x :
  Forall P l -> nth_error l i = Some x -> P x.
Proof.
  intros H Hn. rewrite Forall_forall in H. apply H.
  eapply nth_error_In. exact Hn.
Qed.

(** C2. With a non-negative starting portfolio, once a record of
    [calculateDrawdown] has [portfolioValue] 0 every later record is
    all-zero, and no record has a negative [portfolioValue].  (The other
    three amounts of the claim need not be non-negative for this.) *)
Theorem drawdown_depletion_monotone
    (startingPortfolio annualWithdrawal0 expRet inflRate : number)
    (years startAge : nat)
    (Hstart : 0 <= startingPortfolio) :
  let rs := calculateDrawdown startingPortfolio annualWithdrawal0 expRet
              inflRate years startAge in
  (forall i j ri rj, (i < j)%nat ->
     nth_error rs i = Some ri -> nth_error rs j = Some rj ->
     portfolioValue ri == 0 -> all_zero rj) /\
  (forall r, In r rs -> 0 <= portfolioValue r).
Proof.
  cbn zeta. split.
  - unfold calculateDrawdown.
    destruct (Qlt_le_dec 0 startingPortfolio) as [Hpos|Hle].
    + destruct (drawdown_loop_shape expRet inflRate startAge (S years) 0
                  startingPortfolio annualWithdrawal0 1 Hpos)
        as (l1 & l2 & -> & H1 & H2).
      intros i j ri rj Hij Hi Hj Hz.
      destruct (Nat.lt_ge_cases i (length l1)) as [Hlt|Hge].
      * rewrite nth_error_app1 in Hi by exact Hlt.
        pose proof (nth_error_Forall _ _ _ _ H1 Hi) as Hp. cbn in Hp.
        rewrite Hz in Hp. discriminate Hp.
      * rewrite nth_error_app2 in Hj by lia.
        exact (nth_error_Forall _ _ _ _ H2 Hj).
    + assert (Hz0 : startingPortfolio == 0) by (apply Qle_antisym; assumption).
      intros i j ri rj Hij Hi Hj _. cbn in Hj.
      assert (E : num_le (startingPortfolio + startingPortfolio * expRet - 0)
                    0 = true).
      { apply num_le_true. rewrite Hz0. apply Qle_lteq. right. ring. }
      rewrite E in Hj. destruct j as [|j]; [lia|]. cbn in Hj.
      exact (nth_error_Forall _ _ _ _
               (depleted_fill_all_zero startAge years 1) Hj).
  - intros r Hr.
    pose proof (drawdown_loop_nonneg expRet inflRate startAge (S years) 0
                  startingPortfolio annualWithdrawal0 1) as H.
    rewrite Forall_forall in H. apply H. exact Hr.
Qed.

Lemma drawdown_depletion_monotone_witness :
  0 <= 100 /\
  forall r, In r (calculateDrawdown 100 60 0.05 0.02 3 65) ->
            0 <= portfolioValue r.
Proof.
  split; [discriminate |].
  apply (drawdown_depletion_monotone 100 60 0.05 0.02 3 65). discriminate.
Defined.

(** The record of year [yr + k], as long as the loop has not been left
    before it: its withdrawal is the pending withdrawal multiplied [k]
    times by [1 + inflRate]. *)
Lemma drawdown_loop_withdrawal expRet inflRate startAge n yr pv cw ci k :
  (k < n)%nat ->
  (forall d, depletion_year expRet inflRate n yr pv cw = Some d ->
             (yr + k <= d)%nat) ->
  exists r,
    nth_error (drawdown_loop expRet inflRate startAge n yr pv cw ci) k
    = Some r /\
    year r = (yr + k)%nat /\
    withdrawal r
    == (if Nat.eqb (yr + k) 0 then 0
        else cw * (1 + inflRate) ^ Z.of_nat k).
Proof.
  revert yr pv cw ci k. induction n as [|n IH]; intros yr pv cw ci k Hk Hd.
  - lia.
  - destruct k as [|k].
    + cbn. destruct (num_le _ 0); eexists; (split; [reflexivity|]); cbn;
        rewrite Nat.add_0_r; (split; [reflexivity|]);
        destruct (Nat.eqb yr 0); try reflexivity; ring.
    + cbn in Hd. cbn [drawdown_loop].
      destruct (num_le (pv + pv * expRet
                        - (if Nat.eqb yr 0 then 0 else cw)) 0) eqn:E.
      * specialize (Hd yr eq_refl). lia.
      * destruct (IH (S yr)
                    (pv + pv * expRet - (if Nat.eqb yr 0 then 0 else cw))
                    (cw * (1 + inflRate)) (ci * (1 + inflRate)) k)
          as (r & Hr & Hy & Hw).
        { lia. }
        { intros d Hdep. specialize (Hd d Hdep). lia. }
        exists r. split; [exact Hr|]. split; [lia|].
        rewrite Hw. replace (yr + S k)%nat with (S yr + k)%nat by lia.
        cbn [Nat.add Nat.eqb]. rewrite (Qpower_of_nat_succ _ k). ring.
Qed.

Lemma depletion_year_ge expRet inflRate n yr pv cw d :
  depletion_year expRet inflRate n yr pv cw = Some d -> (yr <= d)%nat.
Proof.
  revert yr pv cw. induction n as [|n IH]; intros yr pv cw H.
  - discriminate.
  - cbn in H. destruct (num_le _ 0).
    + injection H as <-. lia.
    + apply IH in H. lia.
Qed.

(** After the year of the [break] every record is all-zero. *)
Lemma drawdown_loop_after_depletion expRet inflRate startAge n yr pv cw ci
    d k r :
  depletion_year expRet inflRate n yr pv cw = Some d ->
  (d < yr + k)%nat ->
  nth_error (drawdown_loop expRet inflRate startAge n yr pv cw ci) k
  = Some r ->
  all_zero r.
Proof.
  revert yr pv cw ci k. induction n as [|n IH]; intros yr pv cw ci k Hd Hk Hr.
  - discriminate.
  - cbn in Hd, Hr.
    destruct (num_le (pv + pv * expRet
                      - (if Nat.eqb yr 0 then 0 else cw)) 0) eqn:E.
    + injection Hd as <-. destruct k as [|k]; [lia|]. cbn in Hr.
      exact (nth_error_Forall _ _ _ _ (depleted_fill_all_zero _ _ _) Hr).
    + destruct k as [|k].
      * apply depletion_year_ge in Hd. lia.
      * cbn in Hr. eapply IH; [exact Hd| |exact Hr]. lia.
Qed.

(** C9. The pending withdrawal is multiplied by [1 + inflationRate]
    already in year 0: the withdrawal recorded at every year [n >= 1] up to
    and including the year in which the loop finds the portfolio depleted
    is [annualWithdrawal * (1 + inflationRate)^n]; at year 1 it is
    [annualWithdrawal * (1 + inflationRate)], which exceeds the raw
    [annualWithdrawal] whenever both it and the rate are positive. *)
Theorem drawdown_withdrawal_inflated
    (startingPortfolio annualWithdrawal0 expRet inflRate : number)
    (years startAge n : nat)
    (Hn : (1 <= n <= years)%nat)
    (Hinfl : 0 <= inflRate)
    (Hbefore : forall d,
       depletion_year expRet inflRate (S years) 0 startingPortfolio
         annualWithdrawal0 = Some d -> (n <= d)%nat) :
  exists r,
    nth_error (calculateDrawdown startingPortfolio annualWithdrawal0 expRet
                 inflRate years startAge) n = Some r /\
    year r = n /\
    withdrawal r == annualWithdrawal0 * (1 + inflRate) ^ Z.of_nat n /\
    (n = 1%nat -> withdrawal r == annualWithdrawal0 * (1 + inflRate)) /\
    (n = 1%nat -> 0 < inflRate -> 0 < annualWithdrawal0 ->
     annualWithdrawal0 < withdrawal r).
Proof.
  destruct (drawdown_loop_withdrawal expRet inflRate startAge (S years) 0
              startingPortfolio annualWithdrawal0 1 n)
    as (r & Hr & Hy & Hw); [lia | exact Hbefore |].
  exists r. split; [exact Hr|]. split; [exact Hy|].
  cbn [Nat.add] in Hw. destruct n as [|n]; [lia|]. cbn [Nat.eqb] in Hw.
  split; [exact Hw|]. split.
  - intro E. injection E as ->. rewrite Hw. cbn. ring.
  - intros E Hi Ha. injection E as ->. rewrite Hw.
    setoid_replace (annualWithdrawal0 * (1 + inflRate) ^ Z.of_nat 1)
      with (annualWithdrawal0 + annualWithdrawal0 * inflRate)
      by (cbn; ring).
    pose proof (Qmult_lt_0_compat _ _ Ha Hi). lra.
Qed.

Lemma drawdown_withdrawal_inflated_witness :
  exists r,
    nth_error (calculateDrawdown 1000 100 0.05 0.02 3 65) 2 = Some r /\
    withdrawal r == 100 * (1 + 0.02) ^ 2.
Proof.
  destruct (drawdown_withdrawal_inflated 1000 100 0.05 0.02 3 65 2)
    as (r & Hr & _ & Hw & _).
  - lia.
  - discriminate.
  - intros d H. vm_compute in H. discriminate H.
  - exists r. split; [exact Hr | exact Hw].
Defined.

(** ** Sorting *)

Section SortBy.
Context {A : Type} (key : A -> number).

Let key_le (a b : A) : Prop := key a <= key b.

Lemma insert_by_perm (x : A) (l : list A) :
  Permutation (insert_by key x l) (x :: l).
Proof.
  induction l as [|y l IH]; cbn.
  - apply Permutation_refl.
  - destruct (Qle_bool (key x) (key y)).
    + apply Permutation_refl.
    + eapply perm_trans; [apply perm_skip, IH | apply perm_swap].
Qed.

Lemma sort_by_perm (l : list A) : Permutation (sort_by key l) l.
Proof.
  induction l as [|x l IH]; cbn.
  - constructor.
  - eapply perm_trans; [apply insert_by_perm | apply perm_skip, IH].
Qed.

Lemma sort_by_length (l : list A) : length (sort_by key l) = length l.
Proof. apply Permutation_length, sort_by_perm. Qed.

Lemma insert_by_sorted (x : A) (l : list A) :
  StronglySorted key_le l -> StronglySorted key_le (insert_by key x l).
Proof.
  induction 1 as [|y l Hs IH Hy]; cbn.
  - repeat constructor.
  - destruct (Qle_bool (key x) (key y)) eqn:E.
    + apply Qle_bool_iff in E. constructor.
      * constructor; assumption.
      * constructor; [exact E|].
        eapply Forall_impl; [|exact Hy].
        intros z Hz. unfold key_le in *. eapply Qle_trans; eassumption.
    + apply (num_le_false (key x) (key y)) in E. constructor; [exact IH|].
      eapply Permutation_Forall.
      * apply Permutation_sym, insert_by_perm.
      * constructor; [|exact Hy]. apply Qlt_le_weak. exact E.
Qed.

Lemma sort_by_sorted (l : list A) : StronglySorted key_le (sort_by key l).
Proof.
  induction l as [|x l IH]; cbn.
  - constructor.
  - apply insert_by_sorted, IH.
Qed.

(** In a sorted array a smaller index holds a smaller key. *)
Lemma sorted_nth_le (l : list A) (i j : nat) (a b : A) :
  StronglySorted key_le l -> (i <= j)%nat ->
  nth_error l i = Some a -> nth_error l j = Some b -> key a <= key b.
Proof.
  intro Hs. revert i j. induction Hs as [|y l Hs IH Hy]; intros i j Hij Hi Hj.
  - destruct i; discriminate.
  - destruct i as [|i], j as [|j]; cbn in Hi, Hj.
    + injection Hi as <-. injection Hj as <-. apply Qle_refl.
    + injection Hi as <-. rewrite Forall_forall in Hy. apply Hy.
      eapply nth_error_In. exact Hj.
    + lia.
    + eapply IH; [|exact Hi|exact Hj]. lia.
Qed.
End SortBy.

Lemma sort_numbers_length (l : list number) :
  length (sort_numbers l) = length l.
Proof. apply sort_by_length. Qed.

Lemma defined_length_le {A : Type} (l : list (option A)) :
  (length (defined l) <= length l)%nat.
Proof. induction l as [|[x|] l IH]; cbn; lia. Qed.

Lemma sort_numbers_undef_length (l : list (option number)) :
  length (sort_numbers_undef l) = length l.
Proof.
  unfold sort_numbers_undef.
  rewrite length_app, length_map, sort_numbers_length, repeat_length.
  pose proof (defined_length_le l). lia.
Qed.

(** A column read inside every row holds no [undefined]. *)
Lemma defined_column (rows : list (list number)) (yr : nat) :
  Forall (fun row => (yr < length row)%nat) rows ->
  defined (map (fun r => nth_error r yr) rows)
  = map (fun r => nth yr r 0) rows.
Proof.
  induction 1 as [|row rows Hrow _ IH]; cbn; [reflexivity|].
  rewrite (nth_error_nth' row 0 Hrow), IH. reflexivity.
Qed.

Lemma valuesAtYear_defined (rows : list (list number)) (yr : nat) :
  Forall (fun row => (yr < length row)%nat) rows ->
  valuesAtYear rows yr
  = map Some (sort_numbers (map (fun r => nth yr r 0) rows)).
Proof.
  intro H. unfold valuesAtYear, sort_numbers_undef.
  rewrite (defined_column rows yr H), !length_map, Nat.sub_diag.
  cbn. apply app_nil_r.
Qed.

(** ** Monte Carlo *)

Lemma mc_accumulation_length rnd inputs n portfolio pos :
  length (fst (fst (mc_accumulation rnd inputs n portfolio pos))) = n.
Proof.
  revert portfolio pos. induction n as [|n IH]; intros portfolio pos; cbn.
  - reflexivity.
  - specialize (IH (portfolio
                    * (1 + (expectedReturn inputs
                            + (rnd pos - 0.5) * 2 * volatility))
                    + monthlyContribution inputs * 12) (S pos)).
    destruct (mc_accumulation rnd inputs n _ (S pos)) as [[vs p] pos'].
    cbn in *. now rewrite IH.
Qed.

Lemma mc_retirement_length rnd inputs n portfolio withdrawal0 pos :
  length (fst (mc_retirement rnd inputs n portfolio withdrawal0 pos)) = n.
Proof.
  revert portfolio withdrawal0 pos.
  induction n as [|n IH]; intros portfolio withdrawal0 pos; cbn.
  - reflexivity.
  - specialize (IH (portfolio
                    * (1 + (expectedReturn inputs - 0.01
                            + (rnd pos - 0.5) * 2 * volatility))
                    - withdrawal0)
                   (withdrawal0 * (1 + inflationRate inputs)) (S pos)).
    destruct (mc_retirement rnd inputs n _ _ (S pos)) as [vs pos'].
    cbn in *. now rewrite IH.
Qed.

(** Every trial records one value per simulated year. *)
Lemma mc_trial_length rnd inputs retirementYears pos :
  length (fst (mc_trial rnd inputs retirementYears pos))
  = (yearsToRetirement inputs + retirementYears)%nat.
Proof.
  unfold mc_trial.
  pose proof (mc_accumulation_length rnd inputs (yearsToRetirement inputs)
                (currentSavings inputs) pos) as Ha.
  destruct (mc_accumulation rnd inputs _ _ pos) as [[acc p] pos1].
  pose proof (mc_retirement_length rnd inputs retirementYears p
                (p * withdrawalRate inputs) pos1) as Hr.
  destruct (mc_retirement rnd inputs _ _ _ pos1) as [ret pos2].
  cbn in *. rewrite length_app. lia.
Qed.

(** [allResults] has one row per trial, each of [totalYears] values. *)
Lemma mc_trials_rows rnd inputs retirementYears n pos :
  length (fst (mc_trials rnd inputs retirementYears n pos)) = n /\
  Forall (fun row =>
            length row = (yearsToRetirement inputs + retirementYears)%nat)
    (fst (mc_trials rnd inputs retirementYears n pos)).
Proof.
  revert pos. induction n as [|n IH]; intro pos; cbn.
  - split; constructor.
  - pose proof (mc_trial_length rnd inputs retirementYears pos) as Ht.
    destruct (mc_trial rnd inputs retirementYears pos) as [yv pos'].
    specialize (IH pos').
    destruct (mc_trials rnd inputs retirementYears n pos') as [rest cnt].
    cbn in *. destruct IH as [IH1 IH2]. split; [lia|].
    constructor; assumption.
Qed.

Lemma of_nat_nonneg (n : nat) : 0 <= of_nat n.
Proof.
  unfold of_nat. change 0 with (inject_Z 0). rewrite <- Zle_Qle. lia.
Qed.

Lemma percentile_index_lt (n : nat) (p : number) :
  0 <= p -> p < 1 -> (1 <= n)%nat -> (percentile_index n p < n)%nat.
Proof.
  intros Hp0 Hp1 Hn. unfold percentile_index, Math_floor.
  assert (Hn0 : 0 < of_nat n).
  { unfold of_nat. change 0 with (inject_Z 0). rewrite <- Zlt_Qlt. lia. }
  assert (Hx : of_nat n * p < of_nat n) by nra.
  assert (Hx0 : 0 <= of_nat n * p) by nra.
  pose proof (Qfloor_le (of_nat n * p)) as Hf.
  pose proof (Qfloor_resp_le _ _ Hx0) as Hf0. cbn in Hf0.
  assert (Hz : (Qfloor (of_nat n * p) < Z.of_nat n)%Z).
  { rewrite Zlt_Qlt. eapply Qle_lt_trans; [exact Hf | exact Hx]. }
  lia.
Qed.

Lemma percentile_index_mono (n : nat) (p q : number) :
  p <= q -> (percentile_index n p <= percentile_index n q)%nat.
Proof.
  intro H. unfold percentile_index, Math_floor.
  pose proof (of_nat_nonneg n) as Hn.
  assert (Hle : of_nat n * p <= of_nat n * q) by nra.
  apply Qfloor_resp_le in Hle. lia.
Qed.

Lemma nth_error_map_seq {B : Type} (f : nat -> B) (n k : nat) :
  (k < n)%nat -> nth_error (map f (seq 0 n)) k = Some (f k).
Proof.
  intro H. rewrite nth_error_map, nth_error_seq.
  apply Nat.ltb_lt in H. rewrite H. reflexivity.
Qed.

(** With every row long enough, a percentile is the element of the sorted
    column at its nearest-rank index. *)
Lemma percentile_at_sorted (rows : list (list number)) (simulations : nat)
    (p : number) (yr : nat) :
  Forall (fun row => (yr < length row)%nat) rows ->
  percentile_at rows simulations p yr
  = nth_error (sort_numbers (map (fun r => nth yr r 0) rows))
      (percentile_index simulations p).
Proof.
  intro H. unfold percentile_at. rewrite (valuesAtYear_defined rows yr H).
  rewrite nth_error_map. now destruct (nth_error _ _).
Qed.

Lemma nth_error_defined {A : Type} (l : list A) (i : nat) :
  (i < length l)%nat -> exists v, nth_error l i = Some v.
Proof.
  intro H. destruct (nth_error l i) as [v|] eqn:E; [now exists v|].
  apply nth_error_None in E. lia.
Qed.

(** The percentiles of a year are read from the sorted column of that
    year's values at the indices of the five ranks, and are in order. *)
Lemma percentiles_nearest_rank_aux (rnd : nat -> number)
    (inputs : PortfolioInputs) (currentAge : nat) (monthlyExpenses : number)
    (simulations retirementYears yr : nat)
    (Hyr : (yr < yearsToRetirement inputs + retirementYears)%nat) :
  let res := runMonteCarloSimulation rnd inputs currentAge monthlyExpenses
               simulations retirementYears in
  let allResults := fst (mc_trials rnd inputs retirementYears simulations 0) in
  let column := map (fun r => nth yr r 0) allResults in
  let sorted := sort_numbers column in
  let rank p := nth_error sorted (percentile_index simulations p) in
  length column = simulations /\
  StronglySorted Qle sorted /\ Permutation sorted column /\
  nth_error (percentile5 res) yr = Some (rank 0.05) /\
  nth_error (percentile25 res) yr = Some (rank 0.25) /\
  nth_error (percentile50 res) yr = Some (rank 0.50) /\
  nth_error (percentile75 res) yr = Some (rank 0.75) /\
  nth_error (percentile95 res) yr = Some (rank 0.95) /\
  ((1 <= simulations)%nat ->
   exists v5 v25 v50 v75 v95,
     rank 0.05 = Some v5 /\ rank 0.25 = Some v25 /\ rank 0.50 = Some v50 /\
     rank 0.75 = Some v75 /\ rank 0.95 = Some v95 /\
     v5 <= v25 /\ v25 <= v50 /\ v50 <= v75 /\ v75 <= v95).
Proof.
  cbn zeta. unfold runMonteCarloSimulation.
  destruct (mc_trials_rows rnd inputs retirementYears simulations 0)
    as [Hlen Hrows].
  destruct (mc_trials rnd inputs retirementYears simulations 0)
    as [allResults successCount].
  cbn [fst] in *.
  assert (Hlong : Forall (fun row => (yr < length row)%nat) allResults).
  { eapply Forall_impl; [|exact Hrows]. cbn. intros row ->. exact Hyr. }
  assert (Hsorted : StronglySorted Qle
            (sort_numbers (map (fun r => nth yr r 0) allResults))).
  { exact (sort_by_sorted (fun x => x) _). }
  cbn [percentile5 percentile25 percentile50 percentile75 percentile95].
  rewrite !(nth_error_map_seq _ _ yr Hyr).
  rewrite !(percentile_at_sorted allResults simulations _ yr Hlong).
  split; [now rewrite length_map|].
  split; [exact Hsorted|].
  split; [apply (sort_by_perm (fun x => x))|].
  do 5 (split; [reflexivity|]).
  intro Hsim.
  assert (Hidx : forall p, 0 <= p -> p < 1 ->
            exists v, nth_error
                        (sort_numbers (map (fun r => nth yr r 0) allResults))
                        (percentile_index simulations p) = Some v).
  { intros p Hp0 Hp1. apply nth_error_defined.
    rewrite sort_numbers_length, length_map, Hlen.
    apply percentile_index_lt; assumption. }
  destruct (Hidx 0.05) as [v5 H5]; [discriminate | reflexivity |].
  destruct (Hidx 0.25) as [v25 H25]; [discriminate | reflexivity |].
  destruct (Hidx 0.50) as [v50 H50]; [discriminate | reflexivity |].
  destruct (Hidx 0.75) as [v75 H75]; [discriminate | reflexivity |].
  destruct (Hidx 0.95) as [v95 H95]; [discriminate | reflexivity |].
  exists v5, v25, v50, v75, v95. do 5 (split; [assumption|]).
  repeat split.
  - refine (sorted_nth_le (fun x => x) _ _ _ _ _ Hsorted _ H5 H25).
    apply percentile_index_mono. discriminate.
  - refine (sorted_nth_le (fun x => x) _ _ _ _ _ Hsorted _ H25 H50).
    apply percentile_index_mono. discriminate.
  - refine (sorted_nth_le (fun x => x) _ _ _ _ _ Hsorted _ H50 H75).
    apply percentile_index_mono. discriminate.
  - refine (sorted_nth_le (fun x => x) _ _ _ _ _ Hsorted _ H75 H95).
    apply percentile_index_mono. discriminate.
Qed.

(** C4. At every year offset each percentile is the element at index
    [floor(simulations * p)] of that year's values over all trials sorted
    ascending, with no interpolation: the index [i] read is the natural
    number with [i <= simulations * p < i + 1].  With at least one trial
    the five are defined and [percentile5 <= percentile25 <= percentile50
    <= percentile75 <= percentile95]. *)
Theorem percentiles_nearest_rank (rnd : nat -> number)
    (inputs : PortfolioInputs) (currentAge : nat) (monthlyExpenses : number)
    (simulations retirementYears yr : nat)
    (Hyr : (yr < yearsToRetirement inputs + retirementYears)%nat) :
  let res := runMonteCarloSimulation rnd inputs currentAge monthlyExpenses
               simulations retirementYears in
  let allResults := fst (mc_trials rnd inputs retirementYears simulations 0) in
  let column := map (fun r => nth yr r 0) allResults in
  let sorted := sort_numbers column in
  let index p :=
    Z.to_nat (Qfloor (inject_Z (Z.of_nat simulations) * p)) in
  let rank p := nth_error sorted (index p) in
  (forall p, 0 <= p ->
     inject_Z (Z.of_nat (index p)) <= inject_Z (Z.of_nat simulations) * p /\
     inject_Z (Z.of_nat simulations) * p < inject_Z (Z.of_nat (index p)) + 1) /\
  index 0.05 = Z.to_nat (Z.of_nat simulations * 5 / 100) /\
  index 0.25 = Z.to_nat (Z.of_nat simulations * 25 / 100) /\
  index 0.50 = Z.to_nat (Z.of_nat simulations * 50 / 100) /\
  index 0.75 = Z.to_nat (Z.of_nat simulations * 75 / 100) /\
  index 0.95 = Z.to_nat (Z.of_nat simulations * 95 / 100) /\
  length column = simulations /\
  StronglySorted Qle sorted /\ Permutation sorted column /\
  nth_error (percentile5 res) yr = Some (rank 0.05) /\
  nth_error (percentile25 res) yr = Some (rank 0.25) /\
  nth_error (percentile50 res) yr = Some (rank 0.50) /\
  nth_error (percentile75 res) yr = Some (rank 0.75) /\
  nth_error (percentile95 res) yr = Some (rank 0.95) /\
  ((1 <= simulations)%nat ->
   exists v5 v25 v50 v75 v95,
     rank 0.05 = Some v5 /\ rank 0.25 = Some v25 /\ rank 0.50 = Some v50 /\
     rank 0.75 = Some v75 /\ rank 0.95 = Some v95 /\
     v5 <= v25 /\ v25 <= v50 /\ v50 <= v75 /\ v75 <= v95).
Proof.
  cbn zeta. split.
  - intros p Hp.
    assert (Hx : 0 <= inject_Z (Z.of_nat simulations) * p).
    { apply Qmult_le_0_compat; [apply (of_nat_nonneg simulations) | exact Hp]. }
    pose proof (Qfloor_resp_le _ _ Hx) as Hf0. cbn in Hf0.
    rewrite Z2Nat.id by exact Hf0.
    split; [apply Qfloor_le|].
    pose proof (Qlt_floor (inject_Z (Z.of_nat simulations) * p)) as Hlt.
    rewrite inject_Z_plus in Hlt. exact Hlt.
  - assert (Hdiv : forall a b : positive,
              Qfloor (inject_Z (Z.of_nat simulations) * (Z.pos a # b))
              = (Z.of_nat simulations * Z.pos a / Z.pos b)%Z).
    { intros a b. unfold Qfloor, Qmult, inject_Z. cbn [Qnum Qden].
      rewrite Pos.mul_1_l. reflexivity. }
    split; [f_equal; exact (Hdiv 5%positive 100%positive)|].
    split; [f_equal; exact (Hdiv 25%positive 100%positive)|].
    split; [f_equal; exact (Hdiv 50%positive 100%positive)|].
    split; [f_equal; exact (Hdiv 75%positive 100%positive)|].
    split; [f_equal; exact (Hdiv 95%positive 100%positive)|].
    exact (percentiles_nearest_rank_aux rnd inputs currentAge
             monthlyExpenses simulations retirementYears yr Hyr).
Qed.

Lemma percentiles_nearest_rank_witness :
  let inputs := mkPortfolioInputs 1000 10 1 0.07 0.03 0.04 in
  let res := runMonteCarloSimulation (fun i => of_nat i / 10) inputs 30 0
               3 1 in
  (1 < yearsToRetirement inputs + 1)%nat /\
  length (map (fun r => nth 1 r 0)
            (fst (mc_trials (fun i => of_nat i / 10) inputs 1 3 0)))
  = 3%nat.
Proof.
  split; [cbn; lia |].
  apply (percentiles_nearest_rank (fun i => of_nat i / 10)
           (mkPortfolioInputs 1000 10 1 0.07 0.03 0.04) 30 0 3 1 1).
  cbn; lia.
Defined.

(** C10. For every rank [p] of the simulation the array read at
    [floor(simulations * p)] has exactly [simulations] elements and the
    index is inside it if and only if [simulations >= 1]; the same holds
    for the read of [medianEndValue].  Within the simulated years a
    percentile is then a number, and with [simulations = 0] it is
    [undefined]. *)
Theorem percentile_lookups_in_bounds (rnd : nat -> number)
    (inputs : PortfolioInputs) (simulations retirementYears yr : nat)
    (p : number) (Hp : In p percentile_ranks) :
  let allResults := fst (mc_trials rnd inputs retirementYears simulations 0) in
  let endValues := sort_numbers_undef (map last_elem allResults) in
  length (valuesAtYear allResults yr) = simulations /\
  length endValues = simulations /\
  ((percentile_index simulations p < length (valuesAtYear allResults yr))%nat
   <-> (1 <= simulations)%nat) /\
  ((percentile_index simulations 0.5 < length endValues)%nat
   <-> (1 <= simulations)%nat) /\
  ((1 <= simulations)%nat ->
   (yr < yearsToRetirement inputs + retirementYears)%nat ->
   exists v, percentile_at allResults simulations p yr = Some v) /\
  (simulations = 0%nat -> percentile_at allResults simulations p yr = None).
Proof.
  cbn zeta.
  destruct (mc_trials_rows rnd inputs retirementYears simulations 0)
    as [Hlen Hrows].
  assert (Hp01 : 0 <= p /\ p < 1).
  { cbn in Hp. decompose [or] Hp; subst; try contradiction;
      split; (discriminate || reflexivity). }
  assert (L1 : length (valuesAtYear
                         (fst (mc_trials rnd inputs retirementYears
                                 simulations 0)) yr) = simulations).
  { unfold valuesAtYear. now rewrite sort_numbers_undef_length, length_map. }
  assert (L2 : length (sort_numbers_undef
                         (map last_elem
                            (fst (mc_trials rnd inputs retirementYears
                                    simulations 0)))) = simulations).
  { now rewrite sort_numbers_undef_length, length_map. }
  rewrite L1, L2. do 2 (split; [reflexivity|]).
  split; [|split; [|split]].
  - split; [lia|]. intro H. now apply percentile_index_lt.
  - split; [lia|]. intro H.
    apply percentile_index_lt; [discriminate | reflexivity | exact H].
  - intros Hsim Hyr. rewrite percentile_at_sorted.
    + apply nth_error_defined.
      rewrite sort_numbers_length, length_map, Hlen.
      now apply percentile_index_lt.
    + eapply Forall_impl; [|exact Hrows]. cbn. intros row ->. exact Hyr.
  - intros ->. reflexivity.
Qed.

Lemma percentile_lookups_in_bounds_witness :
  In 0.95 percentile_ranks /\
  length (valuesAtYear
            (fst (mc_trials (fun i => of_nat i / 10)
                    (mkPortfolioInputs 1000 10 1 0.07 0.03 0.04) 1 3 0)) 0)
  = 3%nat.
Proof.
  split; [cbn; tauto |].
  apply (percentile_lookups_in_bounds (fun i => of_nat i / 10)
           (mkPortfolioInputs 1000 10 1 0.07 0.03 0.04) 3 1 0 0.95).
  cbn; tauto.
Defined.

(** ** The historical backtest *)

Lemma HISTORICAL_RETURNS_length : length HISTORICAL_RETURNS = 96%nat.
Proof. reflexivity. Qed.

Lemma HISTORICAL_INFLATION_length : length HISTORICAL_INFLATION = 96%nat.
Proof. reflexivity. Qed.

Lemma data_at_bound (data : list number) (lo : number) :
  lo < 0 -> forallb (fun x => num_lt lo x) data = true ->
  forall i, lo < data_at data i.
Proof.
  intros Hlo Hall i. unfold data_at.
  destruct (nth_in_or_default i data 0) as [Hin | ->]; [|exact Hlo].
  rewrite forallb_forall in Hall. apply num_lt_true, Hall, Hin.
Qed.

(** No year of the data loses the whole portfolio, and no year has a
    deflation of 100%: the growth factors are positive. *)
Lemma historical_return_factor_pos (i : nat) :
  0 < 1 + data_at HISTORICAL_RETURNS i.
Proof.
  assert (H : -1 < data_at HISTORICAL_RETURNS i).
  { apply data_at_bound; [reflexivity | vm_compute; reflexivity]. }
  lra.
Qed.

Lemma historical_inflation_factor_pos (i : nat) :
  0 < 1 + data_at HISTORICAL_INFLATION i.
Proof.
  assert (H : -1 < data_at HISTORICAL_INFLATION i).
  { apply data_at_bound; [reflexivity | vm_compute; reflexivity]. }
  lra.
Qed.

(** C5. The backtest returns [96 - (yearsToRetirement + retirementYears)]
    sequences when that is positive; when the horizon is at least the 96
    years of the data it returns an empty list of sequences, with
    [worstSequence], [bestSequence] and [medianFinalValue] undefined and
    the rates and the average NaN, and raises nothing. *)
Theorem backtest_sequence_count (inputs : PortfolioInputs)
    (currentAge retirementYears : nat) :
  let total := (yearsToRetirement inputs + retirementYears)%nat in
  let res := runHistoricalBacktest inputs currentAge retirementYears in
  length HISTORICAL_RETURNS = 96%nat /\
  ((total < 96)%nat ->
   length (sequences res) = (length HISTORICAL_RETURNS - total)%nat /\
   (0 < length (sequences res))%nat) /\
  ((96 <= total)%nat ->
   sequences res = [] /\ worstSequence res = None /\
   bestSequence res = None /\ medianFinalValue res = None /\
   averageFinalValue res = None /\ hb_successRate res = None /\
   percentSurvived30Years res = None).
Proof.
  cbn zeta. split; [reflexivity|].
  unfold runHistoricalBacktest. rewrite HISTORICAL_RETURNS_length.
  cbn [sequences worstSequence bestSequence medianFinalValue
       averageFinalValue hb_successRate percentSurvived30Years].
  split.
  - intro H. rewrite length_map, length_seq. lia.
  - intro H.
    replace (Z.to_nat (Z.of_nat 96 - Z.of_nat
                         (yearsToRetirement inputs + retirementYears)))
      with 0%nat by lia.
    cbn. repeat split; reflexivity.
Qed.

Lemma backtest_sequence_count_witness :
  (10 + 30 < 96)%nat /\
  length (sequences
            (runHistoricalBacktest
               (mkPortfolioInputs 500000 5000 10 0.07 0.03 0.04) 35 30))
  = (length HISTORICAL_RETURNS - (10 + 30))%nat.
Proof.
  split; [lia |].
  apply (backtest_sequence_count
           (mkPortfolioInputs 500000 5000 10 0.07 0.03 0.04) 35 30).
  cbn; lia.
Defined.

Lemma hb_accumulation_nonneg inputs startIdx startYear n yr s :
  0 <= monthlyContribution inputs ->
  0 <= ss_portfolio s -> ss_yearsDepleted s = None ->
  0 <= ss_portfolio (hb_accumulation inputs startIdx startYear n yr s) /\
  ss_yearsDepleted (hb_accumulation inputs startIdx startYear n yr s) = None.
Proof.
  intro Hmc. revert yr s. induction n as [|n IH]; intros yr s Hp Hd.
  - split; assumption.
  - cbn [hb_accumulation]. apply IH; [|exact Hd].
    cbn [hb_accumulation_step ss_portfolio].
    pose proof (historical_return_factor_pos (startIdx + yr)) as Hf.
    generalize dependent (data_at HISTORICAL_RETURNS (startIdx + yr)).
    intros q Hf. nra.
Qed.

Lemma hb_at_retirement_inv inputs startIdx :
  0 <= currentSavings inputs -> 0 <= monthlyContribution inputs ->
  hb_inv (hb_at_retirement inputs startIdx).
Proof.
  intros Hcs Hmc. unfold hb_at_retirement, hb_inv.
  destruct (hb_accumulation_nonneg inputs startIdx (1928 + startIdx)
              (yearsToRetirement inputs) 0
              (mkSeqState (currentSavings inputs) 0 (currentSavings inputs)
                 (1928 + startIdx) None []) Hmc Hcs eq_refl) as [Hp Hd].
  cbn [ss_yearsDepleted ss_portfolio ss_withdrawal]. rewrite Hd.
  destruct (Qlt_le_dec 0 (ss_portfolio
              (hb_accumulation inputs startIdx (1928 + startIdx)
                 (yearsToRetirement inputs) 0
                 (mkSeqState (currentSavings inputs) 0
                    (currentSavings inputs) (1928 + startIdx) None []))))
    as [Hpos|Hle].
  - left. exact Hpos.
  - right. assert (E : ss_portfolio
              (hb_accumulation inputs startIdx (1928 + startIdx)
                 (yearsToRetirement inputs) 0
                 (mkSeqState (currentSavings inputs) 0
                    (currentSavings inputs) (1928 + startIdx) None [])) == 0)
      by (apply Qle_antisym; assumption).
    split; [exact E|]. rewrite E. ring.
Qed.

(** One more iteration of the retirement loop, as long as the data last. *)
Lemma hb_retirement_snoc inputs startIdx startYear n yr s :
  (startIdx + yearsToRetirement inputs + yr + n < 96)%nat ->
  hb_retirement inputs startIdx startYear (S n) yr s
  = hb_retirement_step inputs startIdx startYear (yr + n)%nat
      (hb_retirement inputs startIdx startYear n yr s).
Proof.
  revert yr s. induction n as [|n IH]; intros yr s H.
  - cbn [hb_retirement]. rewrite HISTORICAL_RETURNS_length.
    replace (96 <=? startIdx + yearsToRetirement inputs + yr)%nat
      with false by (symmetry; apply Nat.leb_gt; lia).
    now rewrite Nat.add_0_r.
  - change (hb_retirement inputs startIdx startYear (S (S n)) yr s)
      with (if (length HISTORICAL_RETURNS <=?
                  startIdx + yearsToRetirement inputs + yr)%nat
            then s
            else hb_retirement inputs startIdx startYear (S n) (S yr)
                   (hb_retirement_step inputs startIdx startYear yr s)).
    change (hb_retirement inputs startIdx startYear (S n) yr s)
      with (if (length HISTORICAL_RETURNS <=?
                  startIdx + yearsToRetirement inputs + yr)%nat
            then s
            else hb_retirement inputs startIdx startYear n (S yr)
                   (hb_retirement_step inputs startIdx startYear yr s)).
    rewrite HISTORICAL_RETURNS_length.
    replace (96 <=? startIdx + yearsToRetirement inputs + yr)%nat
      with false by (symmetry; apply Nat.leb_gt; lia).
    rewrite IH by lia. f_equal. lia.
Qed.

Lemma hb_retirement_state_succ inputs startIdx k :
  (startIdx + yearsToRetirement inputs + k < 96)%nat ->
  hb_retirement_state inputs startIdx (S k)
  = hb_retirement_step inputs startIdx (1928 + startIdx) k
      (hb_retirement_state inputs startIdx k).
Proof.
  intro H. unfold hb_retirement_state.
  rewrite hb_retirement_snoc by lia. reflexivity.
Qed.

(** What one iteration of the retirement loop does to the locals, by the
    sign of the portfolio it computes. *)
Lemma hb_retirement_step_fields inputs startIdx startYear k s :
  let pre :=
    ss_portfolio s
    * (1 + data_at HISTORICAL_RETURNS
             (startIdx + yearsToRetirement inputs + k))
    - ss_withdrawal s in
  let s' := hb_retirement_step inputs startIdx startYear k s in
  ss_withdrawal s'
  = ss_withdrawal s
    * (1 + data_at HISTORICAL_INFLATION
             (startIdx + yearsToRetirement inputs + k)) /\
  (pre <= 0 ->
   ss_lowestValue s' = ss_lowestValue s /\
   ss_lowestYear s' = ss_lowestYear s /\
   (ss_yearsDepleted s = None ->
    ss_yearsDepleted s' = Some k /\ ss_portfolio s' = 0) /\
   (forall d, ss_yearsDepleted s = Some d ->
    ss_yearsDepleted s' = Some d /\ ss_portfolio s' = pre)) /\
  (0 < pre ->
   ss_yearsDepleted s' = ss_yearsDepleted s /\ ss_portfolio s' = pre).
Proof.
  cbn zeta. unfold hb_retirement_step.
  cbn [ss_withdrawal ss_lowestValue ss_lowestYear ss_yearsDepleted
       ss_portfolio].
  set (pre := ss_portfolio s * _ - ss_withdrawal s).
  split; [reflexivity|]. split.
  - intro Hle.
    assert (G : num_gt pre 0 = false) by (apply num_gt_false; exact Hle).
    assert (L : num_le pre 0 = true) by (apply num_le_true; exact Hle).
    rewrite G, L, Bool.andb_false_r. cbn [andb].
    split; [reflexivity|]. split; [reflexivity|]. split.
    + intros ->. split; reflexivity.
    + intros d ->. split; reflexivity.
  - intro Hpos.
    assert (L : num_le pre 0 = false) by (apply num_le_false; exact Hpos).
    rewrite L. cbn [andb]. split; reflexivity.
Qed.

Lemma hb_history_holds inputs startIdx k :
  0 <= currentSavings inputs -> 0 <= monthlyContribution inputs ->
  (startIdx + yearsToRetirement inputs + k <= 96)%nat ->
  hb_history inputs startIdx k.
Proof.
  intros Hcs Hmc. induction k as [|k IH]; intro Hk.
  - unfold hb_history. cbn zeta.
    change (hb_retirement_state inputs startIdx 0)
      with (hb_at_retirement inputs startIdx).
    pose proof (hb_at_retirement_inv inputs startIdx Hcs Hmc) as Hinv.
    split; [exact Hinv|].
    assert (Hd : ss_yearsDepleted (hb_at_retirement inputs startIdx) = None).
    { unfold hb_at_retirement. cbn [ss_yearsDepleted].
      apply hb_accumulation_nonneg; [exact Hmc | exact Hcs | reflexivity]. }
    rewrite Hd. intros j Hj. lia.
  - specialize (IH ltac:(lia)). unfold hb_history in *. cbn zeta in *.
    destruct IH as [Hinv Hhist].
    rewrite (hb_retirement_state_succ inputs startIdx k) by lia.
    pose proof (hb_retirement_step_fields inputs startIdx (1928 + startIdx) k
                  (hb_retirement_state inputs startIdx k)) as F.
    cbn zeta in F. fold (hb_portfolio_at inputs startIdx k) in F.
    destruct F as (Fw & Fle & Fpos).
    pose proof (historical_return_factor_pos
                  (startIdx + yearsToRetirement inputs + k)) as Hr.
    pose proof (historical_inflation_factor_pos
                  (startIdx + yearsToRetirement inputs + k)) as Hi.
    assert (Epre : hb_portfolio_at inputs startIdx k
                   = ss_portfolio (hb_retirement_state inputs startIdx k)
                     * (1 + data_at HISTORICAL_RETURNS
                              (startIdx + yearsToRetirement inputs + k))
                     - ss_withdrawal (hb_retirement_state inputs startIdx k))
      by reflexivity.
    unfold hb_inv in *.
    set (s := hb_retirement_state inputs startIdx k) in *.
    set (s' := hb_retirement_step inputs startIdx (1928 + startIdx) k s) in *.
    set (pre := hb_portfolio_at inputs startIdx k) in *.
    set (fr := data_at HISTORICAL_RETURNS _) in *.
    set (fi := data_at HISTORICAL_INFLATION _) in *.
    destruct (ss_yearsDepleted s) as [d|] eqn:Ed.
    + destruct Hinv as [Hp Hw].
      destruct Hhist as (Hdk & Hpd & Hbefore & Hset & Hafter & Hlv & Hly).
      assert (Hle : pre <= 0).
      { rewrite Epre.
        assert (Hprod : 0 <= (- ss_portfolio s) * (1 + fr))
          by (apply Qmult_le_0_compat; lra).
        lra. }
      destruct (Fle Hle) as (Flv & Fly & _ & Fsome).
      destruct (Fsome d eq_refl) as [Fd Fp].
      rewrite Fd. split.
      * rewrite Fp, Fw. split; [exact Hle |].
        apply Qmult_le_0_compat; lra.
      * split; [lia|]. split; [exact Hpd|]. split; [exact Hbefore|].
        split; [exact Hset|]. split; [|split; congruence].
        intros j Hj. destruct (Nat.eq_dec j (S k)) as [->|Hne].
        -- rewrite (hb_retirement_state_succ inputs startIdx k) by lia.
           fold s s'. rewrite Fp. exact Hle.
        -- apply Hafter. lia.
    + destruct (Qlt_le_dec 0 pre) as [Hpos|Hle].
      * destruct (Fpos Hpos) as [Fd Fp]. rewrite Fd. split.
        -- left. rewrite Fp. exact Hpos.
        -- intros j Hj. destruct (Nat.eq_dec j k) as [->|Hne].
           ++ exact Hpos.
           ++ apply Hhist. lia.
      * destruct (Fle Hle) as (Flv & Fly & Fnone & _).
        destruct (Fnone eq_refl) as [Fd Fp]. rewrite Fd. split.
        -- rewrite Fp, Fw. split; [apply Qle_refl|].
           destruct Hinv as [Hp | [Hp Hw]].
           ++ pose proof (Qmult_lt_0_compat _ _ Hp Hr) as Hprod.
              rewrite Epre in Hle.
              apply Qmult_le_0_compat; lra.
           ++ rewrite Hw. lra.
        -- split; [lia|]. split; [exact Hle|]. split; [exact Hhist|].
           rewrite (hb_retirement_state_succ inputs startIdx k) by lia.
           fold s s'. split; [exact Fp|]. split; [|split; assumption].
           intros j Hj. assert (j = S k) as -> by lia.
           rewrite (hb_retirement_state_succ inputs startIdx k) by lia.
           fold s s'. rewrite Fp. apply Qle_refl.
Qed.

(** The sequence pushed for a start index that has enough data. *)
Lemma backtest_sequence_at inputs currentAge retirementYears startIdx :
  (startIdx + yearsToRetirement inputs + retirementYears < 96)%nat ->
  nth_error
    (sequences (runHistoricalBacktest inputs currentAge retirementYears))
    startIdx
  = Some (hb_sequence inputs retirementYears startIdx).
Proof.
  intro H. unfold runHistoricalBacktest. cbn [sequences].
  rewrite HISTORICAL_RETURNS_length. apply nth_error_map_seq. lia.
Qed.

(** C7, as the source has it: the portfolio is set to 0 in the year of the
    depletion only.  With 1,000 saved, a withdrawal rate of 0.5 and four
    years of retirement from 1928, the portfolio is depleted at offset 2
    and is negative, not 0, after the iteration of offset 3. *)
Lemma backtest_portfolio_not_frozen :
  let inputs := mkPortfolioInputs 1000 0 0 0.07 0.03 0.5 in
  yearsDepleted (hb_sequence inputs 4 0) = Some 2%nat /\
  ss_portfolio (hb_retirement_state inputs 0 3) == 0 /\
  ss_portfolio (hb_retirement_state inputs 0 4) < 0 /\
  ~ (forall k, (2 < k <= 4)%nat ->
       ss_portfolio (hb_retirement_state inputs 0 k) == 0).
Proof.
  cbn zeta. split; [vm_compute; reflexivity|].
  split; [vm_compute; reflexivity|].
  split; [vm_compute; reflexivity|].
  intro H. specialize (H 4%nat ltac:(lia)). vm_compute in H. discriminate H.
Qed.

(** C7, amended.  For non-negative savings and contributions and a start
    index with enough data: if an iteration of the retirement loop leaves
    the portfolio at or below 0, [yearsDepleted] is the first offset at
    which that happens; the portfolio is set to 0 in that iteration and in
    the later ones is not clamped again but stays at or below 0;
    [finalValue] is 0, [survived] is false, and [lowestValue] and
    [lowestYear] are those held on entry to the depletion year. *)
Theorem backtest_depletion (inputs : PortfolioInputs)
    (currentAge retirementYears startIdx k : nat)
    (Hcs : 0 <= currentSavings inputs)
    (Hmc : 0 <= monthlyContribution inputs)
    (Hstart :
       (startIdx + yearsToRetirement inputs + retirementYears < 96)%nat)
    (Hk : (k < retirementYears)%nat)
    (Hdrop : hb_portfolio_at inputs startIdx k <= 0) :
  let st := hb_retirement_state inputs startIdx in
  exists sq d,
    nth_error
      (sequences (runHistoricalBacktest inputs currentAge retirementYears))
      startIdx = Some sq /\
    yearsDepleted sq = Some d /\ (d <= k)%nat /\
    hb_portfolio_at inputs startIdx d <= 0 /\
    (forall j, (j < d)%nat -> 0 < hb_portfolio_at inputs startIdx j) /\
    ss_portfolio (st (S d)) = 0 /\
    (forall j, (d < j <= retirementYears)%nat -> ss_portfolio (st j) <= 0) /\
    finalValue sq == 0 /\ survived sq = false /\
    lowestValue sq = Math_max 0 (ss_lowestValue (st d)) /\
    lowestYear sq = ss_lowestYear (st d).
Proof.
  cbn zeta. exists (hb_sequence inputs retirementYears startIdx).
  pose proof (hb_history_holds inputs startIdx retirementYears Hcs Hmc
                ltac:(lia)) as [Hinv Hhist].
  pose proof (backtest_sequence_at inputs currentAge retirementYears
                startIdx Hstart) as Hsq.
  cbn zeta in Hhist. unfold hb_inv in Hinv.
  destruct (ss_yearsDepleted
              (hb_retirement_state inputs startIdx retirementYears))
    as [d|] eqn:Ed.
  - destruct Hhist as (Hd & Hpd & Hbefore & Hset & Hafter & Hlv & Hly).
    destruct Hinv as [Hp Hw].
    exists d. split; [exact Hsq|].
    unfold hb_sequence.
    cbn [yearsDepleted finalValue survived lowestValue lowestYear].
    split; [exact Ed|]. split.
    + destruct (Nat.le_gt_cases d k) as [Hle|Hgt]; [exact Hle|].
      specialize (Hbefore k Hgt). lra.
    + split; [exact Hpd|]. split; [exact Hbefore|]. split; [exact Hset|].
      split; [exact Hafter|]. split; [apply Math_max_0_of_nonpos, Hp|].
      split; [apply num_gt_false, Hp|]. split; congruence.
  - specialize (Hhist k Hk). lra.
Qed.

Lemma backtest_depletion_witness :
  let inputs := mkPortfolioInputs 1000 0 0 0.07 0.03 0.5 in
  hb_portfolio_at inputs 0 2 <= 0 /\
  exists sq d,
    nth_error (sequences (runHistoricalBacktest inputs 40 4)) 0 = Some sq /\
    yearsDepleted sq = Some d /\ (d <= 2)%nat.
Proof.
  cbn zeta.
  assert (H : hb_portfolio_at (mkPortfolioInputs 1000 0 0 0.07 0.03 0.5) 0 2
              <= 0) by (vm_compute; discriminate).
  split; [exact H|].
  destruct (backtest_depletion (mkPortfolioInputs 1000 0 0 0.07 0.03 0.5)
              40 4 0 2) as (sq & d & H1 & H2 & H3 & _).
  - discriminate.
  - discriminate.
  - cbn; lia.
  - lia.
  - exact H.
  - exists sq, d. auto.
Defined.

(** ** The CPF projection *)

Lemma Math_round_comp (x y : number) : x == y -> Math_round x = Math_round y.
Proof. intro H. unfold Math_round. now rewrite H. Qed.

Lemma Math_round_0 : Math_round 0 = 0.
Proof. reflexivity. Qed.

Lemma saRatio_of_bounds (b : CPFBalances) :
  0 <= bal_SA b -> 0 <= bal_MA b -> 0 <= saRatio_of b <= 1.
Proof.
  intros Hs Hm. unfold saRatio_of.
  destruct (num_gt (bal_SA b + bal_MA b) 0) eqn:E.
  - apply num_gt_true in E. split.
    + apply Qle_shift_div_l; [exact E | lra].
    + apply Qle_shift_div_r; [exact E | lra].
  - split; discriminate.
Qed.

Lemma rates_for_age_pos (age : nat) :
  0 < rates_total (rates_for_age age) /\
  0 < alloc_OA (allocation (rates_for_age age)) /\
  0 < alloc_SA (allocation (rates_for_age age)) /\
  0 < alloc_MA (allocation (rates_for_age age)).
Proof.
  unfold rates_for_age.
  destruct (age <=? 55)%nat; [repeat split; reflexivity|].
  destruct (age <=? 60)%nat; [repeat split; reflexivity|].
  destruct (age <=? 65)%nat; repeat split; reflexivity.
Qed.

(** A non-negative salary gives non-negative contributions. *)
Lemma calculateCPFContribution_nonneg (monthlySalary : number) (age : nat) :
  0 <= monthlySalary ->
  let c := calculateCPFContribution monthlySalary age in
  0 <= bal_OA c /\ 0 <= bal_SA c /\ 0 <= bal_MA c /\ 0 <= bal_total c.
Proof.
  intro H. cbn zeta. unfold calculateCPFContribution.
  cbn [bal_OA bal_SA bal_MA bal_total].
  destruct (rates_for_age_pos age) as (Ht & Ho & Hs & Hm).
  assert (Hc : 0 <= Math_min monthlySalary OA_WAGE_CEILING)
    by (apply Math_min_glb; [exact H | discriminate]).
  assert (Htot : 0 <= Math_min monthlySalary OA_WAGE_CEILING
                      * rates_total (rates_for_age age))
    by (apply Qmult_le_0_compat; lra).
  repeat split; try exact Htot; apply Qmult_le_0_compat; lra.
Qed.

Lemma cpf_annualContributions_nonneg (monthlySalary : number)
    (age stopContributionsAtAge : nat) :
  0 <= monthlySalary ->
  let c := cpf_annualContributions monthlySalary age stopContributionsAtAge in
  0 <= bal_OA c /\ 0 <= bal_SA c /\ 0 <= bal_MA c /\ 0 <= bal_total c.
Proof.
  intro H. cbn zeta. unfold cpf_annualContributions.
  destruct (age <? stopContributionsAtAge)%nat.
  - destruct (calculateCPFContribution_nonneg monthlySalary age H)
      as (Ho & Hs & Hm & Ht).
    cbn [bal_OA bal_SA bal_MA bal_total]. repeat split; lra.
  - cbn. repeat split; discriminate.
Qed.

(** Non-negative balances earn non-negative interest. *)
Lemma calculateCPFInterest_nonneg (b : CPFBalances) (age : nat) :
  0 <= bal_OA b -> 0 <= bal_SA b -> 0 <= bal_MA b ->
  let i := calculateCPFInterest b age in
  0 <= bal_OA i /\ 0 <= bal_SA i /\ 0 <= bal_MA i.
Proof.
  intros Ho Hs Hm. cbn zeta. unfold calculateCPFInterest.
  fold (saRatio_of b).
  destruct (saRatio_of_bounds b Hs Hm) as [Hr0 Hr1].
  set (r := saRatio_of b) in *.
  assert (H20 : 0 <= Math_min (bal_OA b) 20000)
    by (apply Math_min_glb; [exact Ho | discriminate]).
  assert (H20' : Math_min (bal_OA b) 20000 <= 20000) by apply Math_min_le_r.
  assert (H30 : 0 <= Math_min (bal_OA b) 30000)
    by (apply Math_min_glb; [exact Ho | discriminate]).
  assert (H30' : Math_min (bal_OA b) 30000 <= 30000) by apply Math_min_le_r.
  assert (H60s : 0 <= Math_min (bal_SA b + bal_MA b)
                        (60000 - Math_min (bal_OA b) 20000))
    by (apply Math_min_glb; lra).
  assert (H30s : 0 <= Math_min (bal_SA b + bal_MA b)
                        (30000 - Math_min (bal_OA b) 30000))
    by (apply Math_min_glb; lra).
  set (m20 := Math_min (bal_OA b) 20000) in *.
  set (m30 := Math_min (bal_OA b) 30000) in *.
  set (s60 := Math_min (bal_SA b + bal_MA b) (60000 - m20)) in *.
  set (s30 := Math_min (bal_SA b + bal_MA b) (30000 - m30)) in *.
  assert (A1 : 0 <= s60 * r) by (apply Qmult_le_0_compat; lra).
  assert (A2 : 0 <= s60 * (1 - r)) by (apply Qmult_le_0_compat; lra).
  assert (A3 : 0 <= s30 * r) by (apply Qmult_le_0_compat; lra).
  assert (A4 : 0 <= s30 * (1 - r)) by (apply Qmult_le_0_compat; lra).
  unfold CPF_RATES.
  cbn [rate_OA rate_SA rate_MA EXTRA_FIRST_60K EXTRA_55_PLUS_FIRST_30K].
  destruct (55 <=? age)%nat; cbn [bal_OA bal_SA bal_MA];
    repeat split; lra.
Qed.

Lemma cpf_transfer_nonneg (age yr : nat) (s : CPFState) :
  cpf_nonneg s -> cpf_nonneg (cpf_transfer age yr s).
Proof.
  intros (Ho & Hs & Hm & Hr). unfold cpf_transfer.
  destruct ((age =? 55)%nat && (0 <? yr)%nat).
  - repeat split; cbn; (assumption || discriminate).
  - repeat split; assumption.
Qed.

(** An iteration of the projection keeps the balances non-negative. *)
Lemma cpf_step_nonneg monthlySalary currentAge stopContributionsAtAge yr s :
  0 <= monthlySalary -> cpf_nonneg s ->
  cpf_nonneg
    (snd (cpf_step monthlySalary currentAge stopContributionsAtAge yr s)).
Proof.
  intros Hsal Hs. unfold cpf_step. cbn [snd].
  pose proof (cpf_transfer_nonneg (currentAge + yr) yr s Hs)
    as (Ho & Hsa & Hm & Hr).
  set (s1 := cpf_transfer (currentAge + yr) yr s) in *.
  destruct (cpf_annualContributions_nonneg monthlySalary (currentAge + yr)
              stopContributionsAtAge Hsal) as (Co & Cs & Cm & _).
  destruct (calculateCPFInterest_nonneg
              (mkCPFBalances (st_OA s1) (st_SA s1) (st_MA s1)
                 (st_OA s1 + st_SA s1 + st_MA s1)) (currentAge + yr)
              Ho Hsa Hm) as (Io & Is & Im).
  repeat split; cbn [st_OA st_SA st_MA st_RA]; try lra.
  destruct (55 <=? currentAge + yr)%nat; [|exact Hr].
  cbn. lra.
Qed.

Lemma cpf_state_at_nonneg currentBalances monthlySalary currentAge
    stopContributionsAtAge yr :
  0 <= monthlySalary ->
  0 <= bal_OA currentBalances -> 0 <= bal_SA currentBalances ->
  0 <= bal_MA currentBalances ->
  cpf_nonneg (cpf_state_at currentBalances monthlySalary currentAge
                stopContributionsAtAge yr).
Proof.
  intros Hsal Ho Hs Hm. induction yr as [|yr IH].
  - repeat split; cbn; (assumption || discriminate).
  - cbn [cpf_state_at]. apply cpf_step_nonneg; assumption.
Qed.

(** The record of year [yr + k] is the one the iteration pushes from the
    balances it is entered with. *)
Lemma cpf_loop_nth currentBalances monthlySalary currentAge
    stopContributionsAtAge n yr k :
  (k < n)%nat ->
  nth_error
    (cpf_loop monthlySalary currentAge stopContributionsAtAge n yr
       (cpf_state_at currentBalances monthlySalary currentAge
          stopContributionsAtAge yr)) k
  = Some (fst (cpf_step monthlySalary currentAge stopContributionsAtAge
                 (yr + k)
                 (cpf_state_at currentBalances monthlySalary currentAge
                    stopContributionsAtAge (yr + k)))).
Proof.
  revert yr k. induction n as [|n IH]; intros yr k Hk; [lia|].
  cbn [cpf_loop].
  destruct (cpf_step monthlySalary currentAge stopContributionsAtAge yr
              (cpf_state_at currentBalances monthlySalary currentAge
                 stopContributionsAtAge yr)) as [rec s'] eqn:E.
  destruct k as [|k].
  - rewrite Nat.add_0_r, E. reflexivity.
  - cbn [nth_error].
    assert (Es : s' = cpf_state_at currentBalances monthlySalary currentAge
                        stopContributionsAtAge (S yr))
      by (cbn [cpf_state_at]; now rewrite E).
    rewrite Es, IH by lia. now rewrite Nat.add_succ_r.
Qed.

Lemma projectCPF_nth currentBalances monthlySalary currentAge yearsToProject
    stopContributionsAtAge k :
  (k <= yearsToProject)%nat ->
  nth_error (projectCPF currentBalances monthlySalary currentAge
               yearsToProject stopContributionsAtAge) k
  = Some (fst (cpf_step monthlySalary currentAge stopContributionsAtAge k
                 (cpf_state_at currentBalances monthlySalary currentAge
                    stopContributionsAtAge k))).
Proof.
  intro H. unfold projectCPF.
  apply (cpf_loop_nth currentBalances monthlySalary currentAge
           stopContributionsAtAge (S yearsToProject) 0 k). lia.
Qed.

(** With nothing in SA and a non-negative MA, SA earns no interest. *)
Lemma calculateCPFInterest_SA_zero (oa ma tot : number) (age : nat) :
  0 <= ma -> bal_SA (calculateCPFInterest (mkCPFBalances oa 0 ma tot) age) == 0.
Proof.
  intro Hm. unfold calculateCPFInterest. cbn [bal_OA bal_SA bal_MA].
  assert (R : (if num_gt (0 + ma) 0 then 0 / (0 + ma) else 0.5) == 0
              \/ (ma == 0)).
  { destruct (num_gt (0 + ma) 0) eqn:E.
    - left. unfold Qdiv. ring.
    - right. apply num_gt_false in E. lra. }
  set (r := if num_gt (0 + ma) 0 then 0 / (0 + ma) else 0.5) in *.
  assert (M : forall c, 0 < c -> ma == 0 -> Math_min (0 + ma) c == 0).
  { intros c Hc Hz. unfold Math_min. destruct (Qle_bool (0 + ma) c) eqn:E.
    - lra.
    - apply (num_le_false (0 + ma) c) in E. lra. }
  assert (H60 : 0 < 60000 - Math_min oa 20000)
    by (pose proof (Math_min_le_r oa 20000); lra).
  assert (P60 : Math_min (0 + ma) (60000 - Math_min oa 20000) * r == 0).
  { destruct R as [R|R]; [rewrite R; ring | rewrite (M _ H60 R); ring]. }
  unfold CPF_RATES.
  cbn [rate_OA rate_SA rate_MA EXTRA_FIRST_60K EXTRA_55_PLUS_FIRST_30K].
  destruct (55 <=? age)%nat; cbn [bal_SA].
  - assert (P30 : Math_min (0 + ma) (30000 - Math_min oa 30000) * r == 0).
    { destruct R as [R|R]; [rewrite R; ring|].
      unfold Math_min at 1.
      destruct (Qle_bool (0 + ma) (30000 - Math_min oa 30000)) eqn:E.
      - rewrite R. ring.
      - apply (num_le_false (0 + ma)) in E.
        pose proof (Math_min_le_r oa 30000). lra. }
    rewrite P60, P30. ring.
  - rewrite P60. ring.
Qed.

(** The age-55 iteration of a later year: the record pushed and the
    balances left for the next year. *)
Lemma cpf_step_at_55 monthlySalary currentAge stopContributionsAtAge yr s :
  (currentAge + yr = 55)%nat -> (0 < yr)%nat ->
  let i := calculateCPFInterest
             (mkCPFBalances (st_OA s) 0 (st_MA s) (st_OA s + 0 + st_MA s))
             55 in
  let c := cpf_annualContributions monthlySalary 55 stopContributionsAtAge in
  let r := fst (cpf_step monthlySalary currentAge stopContributionsAtAge
                  yr s) in
  let s' := snd (cpf_step monthlySalary currentAge stopContributionsAtAge
                   yr s) in
  proj_age r = 55%nat /\ proj_SA r = 0 /\ proj_RA r = Math_round (st_SA s) /\
  proj_interest r = Math_round (bal_total i) /\
  st_SA s' = 0 + (bal_SA c + bal_SA i) /\
  st_RA s' = st_SA s + st_SA s * rate_RA CPF_RATES.
Proof.
  intros E Hyr. cbn zeta. unfold cpf_step. rewrite E.
  assert (T : cpf_transfer 55 yr s
              = mkCPFState (st_OA s) 0 (st_MA s) (st_SA s)).
  { unfold cpf_transfer. cbn [Nat.eqb andb].
    apply Nat.ltb_lt in Hyr. now rewrite Hyr. }
  rewrite T. cbn [fst snd proj_age proj_SA proj_RA proj_interest
                  st_OA st_SA st_MA st_RA Nat.leb].
  repeat split; reflexivity.
Qed.

(** An iteration at another age records the balances it is entered with. *)
Lemma cpf_step_not_55 monthlySalary currentAge stopContributionsAtAge yr s :
  (currentAge + yr <> 55)%nat ->
  let r := fst (cpf_step monthlySalary currentAge stopContributionsAtAge
                  yr s) in
  proj_age r = (currentAge + yr)%nat /\
  proj_OA r = Math_round (st_OA s) /\ proj_SA r = Math_round (st_SA s) /\
  proj_MA r = Math_round (st_MA s) /\ proj_RA r = Math_round (st_RA s).
Proof.
  intro E. cbn zeta. unfold cpf_step.
  assert (T : cpf_transfer (currentAge + yr) yr s = s).
  { unfold cpf_transfer. apply Nat.eqb_neq in E. now rewrite E. }
  rewrite T. cbn [fst proj_age proj_OA proj_SA proj_MA proj_RA].
  repeat split; reflexivity.
Qed.

(** C1, as the source has it: the transfer is done at the head of the
    age-55 iteration, before the interest and before the record.  From
    SA = 1,000 at age 54 the record of age 55 already shows SA = 0 and
    RA = 1,050 and an interest of 0, and the record of age 56 shows
    RA = 1,092, neither the 0 recorded as SA at 55 nor the 1,050 held in SA
    before the transfer; with contributions continuing to age 60 the SA
    recorded at 56 is 720, not 0. *)
Lemma cpf_transfer_before_record :
  let b := mkCPFBalances 0 1000 0 1000 in
  let rs := projectCPF b 0 54 2 55 in
  exists r55 r56 r56',
    nth_error rs 1 = Some r55 /\ nth_error rs 2 = Some r56 /\
    nth_error (projectCPF b 1000 54 2 60) 2 = Some r56' /\
    proj_age r55 = 55%nat /\ proj_age r56 = 56%nat /\
    proj_age r56' = 56%nat /\
    st_SA (cpf_state_at b 0 54 55 1) == 1050 /\
    proj_SA r55 == 0 /\ proj_RA r55 == 1050 /\ proj_interest r55 == 0 /\
    proj_RA r56 == 1092 /\
    ~ proj_RA r56 == proj_SA r55 /\
    ~ proj_RA r56 == st_SA (cpf_state_at b 0 54 55 1) /\
    proj_SA r56' == 720 /\ ~ proj_SA r56' == 0.
Proof.
  cbn zeta. eexists _, _, _.
  split; [vm_compute; reflexivity|].
  split; [vm_compute; reflexivity|].
  split; [vm_compute; reflexivity|].
  repeat split; try (vm_compute; reflexivity);
    intro H; vm_compute in H; discriminate H.
Qed.

(** C1, amended.  For non-negative balances and salary and a projection
    from below 55 that reaches 56: the transfer happens at the head of the
    age-55 iteration, so the record of age 55 has SA = 0 and RA equal to
    the rounded SA held on entry to that iteration, and its interest is
    computed on the balances after the transfer; the record of age 56 has
    RA equal to that SA grown by 4%, rounded, and SA equal to the rounded
    SA contribution of age 55, which is 0 when contributions stop at 55 or
    earlier. *)
Theorem cpf_age55_transfer (currentBalances : CPFBalances)
    (monthlySalary : number)
    (currentAge yearsToProject stopContributionsAtAge : nat)
    (Hage : (currentAge < 55)%nat)
    (Hyears : (55 - currentAge + 1 <= yearsToProject)%nat)
    (Hsal : 0 <= monthlySalary)
    (HOA : 0 <= bal_OA currentBalances)
    (HSA : 0 <= bal_SA currentBalances)
    (HMA : 0 <= bal_MA currentBalances) :
  let k := (55 - currentAge)%nat in
  let pre := cpf_state_at currentBalances monthlySalary currentAge
               stopContributionsAtAge k in
  let rs := projectCPF currentBalances monthlySalary currentAge
              yearsToProject stopContributionsAtAge in
  exists r55 r56,
    nth_error rs k = Some r55 /\ nth_error rs (S k) = Some r56 /\
    proj_age r55 = 55%nat /\ proj_age r56 = 56%nat /\
    proj_SA r55 = 0 /\ proj_RA r55 = Math_round (st_SA pre) /\
    proj_interest r55
    = Math_round
        (bal_total
           (calculateCPFInterest
              (mkCPFBalances (st_OA pre) 0 (st_MA pre)
                 (st_OA pre + 0 + st_MA pre)) 55)) /\
    proj_RA r56 = Math_round (st_SA pre * 1.04) /\
    proj_SA r56
    = Math_round
        (bal_SA (cpf_annualContributions monthlySalary 55
                   stopContributionsAtAge)) /\
    ((stopContributionsAtAge <= 55)%nat -> proj_SA r56 = 0).
Proof.
  cbn zeta.
  rewrite (projectCPF_nth _ _ _ _ _ (55 - currentAge)) by lia.
  rewrite (projectCPF_nth _ _ _ _ _ (S (55 - currentAge))) by lia.
  eexists _, _. split; [reflexivity|]. split; [reflexivity|].
  cbn [cpf_state_at].
  pose proof (cpf_state_at_nonneg currentBalances monthlySalary currentAge
                stopContributionsAtAge (55 - currentAge) Hsal HOA HSA HMA)
    as (Po & Ps & Pm & Pr).
  set (pre := cpf_state_at currentBalances monthlySalary currentAge
                stopContributionsAtAge (55 - currentAge)) in *.
  destruct (cpf_step_at_55 monthlySalary currentAge stopContributionsAtAge
              (55 - currentAge) pre ltac:(lia) ltac:(lia))
    as (Ra & Rs & Rr & Ri & Ss & Sr).
  destruct (cpf_step_not_55 monthlySalary currentAge stopContributionsAtAge
              (S (55 - currentAge))
              (snd (cpf_step monthlySalary currentAge stopContributionsAtAge
                      (55 - currentAge) pre)) ltac:(lia))
    as (Na & _ & Ns & _ & Nr).
  pose proof (calculateCPFInterest_SA_zero (st_OA pre) (st_MA pre)
                (st_OA pre + 0 + st_MA pre) 55 Pm) as I0.
  split; [exact Ra|]. split; [rewrite Na; lia|].
  split; [exact Rs|]. split; [exact Rr|]. split; [exact Ri|].
  rewrite Nr, Ns, Sr, Ss.
  assert (S56 : 0 + (bal_SA (cpf_annualContributions monthlySalary 55
                               stopContributionsAtAge)
                     + bal_SA (calculateCPFInterest
                                 (mkCPFBalances (st_OA pre) 0 (st_MA pre)
                                    (st_OA pre + 0 + st_MA pre)) 55))
                == bal_SA (cpf_annualContributions monthlySalary 55
                             stopContributionsAtAge))
    by (rewrite I0; ring).
  split.
  - apply Math_round_comp. unfold CPF_RATES. cbn [rate_RA]. ring.
  - split.
    + apply Math_round_comp. exact S56.
    + intro Hstop. rewrite (Math_round_comp _ _ S56).
      unfold cpf_annualContributions.
      replace (55 <? stopContributionsAtAge)%nat with false
        by (symmetry; apply Nat.ltb_ge; exact Hstop).
      reflexivity.
Qed.

Lemma cpf_age55_transfer_witness :
  let b := mkCPFBalances 0 1000 0 1000 in
  (54 < 55)%nat /\
  exists r55 r56,
    nth_error (projectCPF b 0 54 2 55) 1 = Some r55 /\
    nth_error (projectCPF b 0 54 2 55) 2 = Some r56 /\
    proj_SA r55 = 0.
Proof.
  cbn zeta. split; [lia|].
  destruct (cpf_age55_transfer (mkCPFBalances 0 1000 0 1000) 0 54 2 55)
    as (r55 & r56 & H1 & H2 & _ & _ & H3 & _);
    try (cbn; lia); try discriminate.
  exists r55, r56. auto.
Defined.

(** ** Further properties of the accumulation *)

Lemma accumulation_loop_step inputs currentAge n yr pv ci k r r' :
  nth_error (accumulation_loop inputs currentAge n yr pv ci) k = Some r ->
  nth_error (accumulation_loop inputs currentAge n yr pv ci) (S k)
  = Some r' ->
  returns r = portfolioValue r * expectedReturn inputs /\
  portfolioValue r' = portfolioValue r + contribution r + returns r.
Proof.
  revert yr pv ci k. induction n as [|n IH]; intros yr pv ci k H H'.
  - destruct k; discriminate.
  - destruct k as [|k].
    + cbn in H. injection H as <-. cbn [nth_error accumulation_loop] in H'.
      destruct n as [|n]; [discriminate|]. cbn in H'. injection H' as <-.
      cbn. split; reflexivity.
    + cbn [nth_error accumulation_loop] in H, H'. eapply IH; eassumption.
Qed.

Lemma accumulation_loop_inflation inputs currentAge n yr pv ci k r :
  nth_error (accumulation_loop inputs currentAge n yr pv ci) k = Some r ->
  inflationAdjustedValue r
  == portfolioValue r
     / (ci * (1 + inflationRate inputs) ^ Z.of_nat (S k)).
Proof.
  revert yr pv ci k. induction n as [|n IH]; intros yr pv ci k H.
  - destruct k; discriminate.
  - destruct k as [|k]; cbn [nth_error accumulation_loop] in H.
    + injection H as <-. cbn. reflexivity.
    + apply IH in H. rewrite H.
      rewrite (Qpower_of_nat_succ _ (S k)).
      apply Qdiv_comp; [reflexivity | ring].
Qed.

(** X1. [calculateAccumulation] returns [yearsToRetirement + 1] records;
    the record of year [k] carries year [k], age [currentAge + k], no
    withdrawal, no contribution in year 0 and twelve monthly contributions
    in every later year, and the return on the value it shows. *)
Theorem accumulation_records (inputs : PortfolioInputs) (currentAge k : nat)
    (Hk : (k <= yearsToRetirement inputs)%nat) :
  length (calculateAccumulation inputs currentAge)
  = S (yearsToRetirement inputs) /\
  exists r,
    nth_error (calculateAccumulation inputs currentAge) k = Some r /\
    year r = k /\ age r = (currentAge + k)%nat /\ withdrawal r = 0 /\
    contribution r
    = (if Nat.eqb k 0 then 0 else monthlyContribution inputs * 12) /\
    returns r = portfolioValue r * expectedReturn inputs /\
    (k = 0%nat -> portfolioValue r = currentSavings inputs).
Proof.
  split; [apply calculateAccumulation_length|].
  destruct (nth_error_defined (calculateAccumulation inputs currentAge) k)
    as [r Hr].
  { rewrite calculateAccumulation_length. lia. }
  exists r. split; [exact Hr|].
  destruct (accumulation_loop_nth _ _ _ _ _ _ _ _ Hr) as (Hy & Ha & Hw & Hc).
  cbn [Nat.add] in *. repeat split; try assumption.
  - unfold calculateAccumulation in Hr. clear -Hr.
    revert Hr. generalize (currentSavings inputs) at 1.
    generalize 0%nat at 1. generalize 1 at 1.
    generalize (S (yearsToRetirement inputs)).
    intros n. revert k.
    induction n as [|n IH]; intros k ci yr pv H.
    + destruct k; discriminate.
    + destruct k as [|k]; cbn [nth_error accumulation_loop] in H.
      * injection H as <-. reflexivity.
      * eapply IH. exact H.
  - intros ->. unfold calculateAccumulation in Hr. cbn in Hr.
    injection Hr as <-. reflexivity.
Qed.

Lemma accumulation_records_witness :
  (3 <= yearsToRetirement (mkPortfolioInputs 1000 100 5 0.05 0.02 0.04))%nat /\
  length (calculateAccumulation (mkPortfolioInputs 1000 100 5 0.05 0.02 0.04)
            30) = 6%nat.
Proof.
  split; [cbn; lia |].
  apply (accumulation_records (mkPortfolioInputs 1000 100 5 0.05 0.02 0.04)
           30 3).
  cbn; lia.
Defined.

(** X2. Record, then grow: the value shown for year [k + 1] is the value
    shown for year [k] plus the contribution and the return recorded for
    year [k]. *)
Theorem accumulation_recurrence (inputs : PortfolioInputs)
    (currentAge k : nat) (r r' : SimulationResult)
    (Hr : nth_error (calculateAccumulation inputs currentAge) k = Some r)
    (Hr' : nth_error (calculateAccumulation inputs currentAge) (S k)
           = Some r') :
  portfolioValue r' = portfolioValue r + contribution r + returns r.
Proof.
  unfold calculateAccumulation in *.
  exact (proj2 (accumulation_loop_step _ _ _ _ _ _ _ _ _ Hr Hr')).
Qed.

Lemma accumulation_recurrence_witness :
  exists r r',
    nth_error (calculateAccumulation
                 (mkPortfolioInputs 1000 100 2 0.05 0.02 0.04) 30) 1
    = Some r /\
    nth_error (calculateAccumulation
                 (mkPortfolioInputs 1000 100 2 0.05 0.02 0.04) 30) 2
    = Some r' /\
    portfolioValue r' = portfolioValue r + contribution r + returns r.
Proof.
  eexists _, _. split; [reflexivity|]. split; [reflexivity|].
  apply (accumulation_recurrence
           (mkPortfolioInputs 1000 100 2 0.05 0.02 0.04) 30 1);
    reflexivity.
Defined.

(** X3. The inflation-adjusted value of year [k] is the value shown
    divided by [(1 + inflationRate)^(k+1)]: the running inflation is
    multiplied before it is used, so year 0 is already deflated by one
    year. *)
Theorem accumulation_inflation_adjusted (inputs : PortfolioInputs)
    (currentAge k : nat) (r : SimulationResult)
    (Hr : nth_error (calculateAccumulation inputs currentAge) k = Some r) :
  inflationAdjustedValue r
  == portfolioValue r / (1 + inflationRate inputs) ^ Z.of_nat (k + 1) /\
  (k = 0%nat ->
   inflationAdjustedValue r
   == currentSavings inputs / (1 + inflationRate inputs)).
Proof.
  unfold calculateAccumulation in Hr.
  pose proof (accumulation_loop_inflation _ _ _ _ _ _ _ _ Hr) as H.
  split.
  - rewrite H, Nat.add_1_r. apply Qdiv_comp; [reflexivity | ring].
  - intros ->. cbn in Hr. injection Hr as <-. cbn.
    apply Qdiv_comp; [reflexivity | ring].
Qed.

Lemma accumulation_inflation_adjusted_witness :
  exists r,
    nth_error (calculateAccumulation
                 (mkPortfolioInputs 1000 100 2 0.05 0.02 0.04) 30) 0
    = Some r /\
    inflationAdjustedValue r == 1000 / (1 + 0.02).
Proof.
  eexists. split; [reflexivity|].
  apply (accumulation_inflation_adjusted
           (mkPortfolioInputs 1000 100 2 0.05 0.02 0.04) 30 0).
  - reflexivity.
  - reflexivity.
Defined.

Lemma of_nat_succ (n : nat) : of_nat (S n) == of_nat n + 1.
Proof.
  unfold of_nat. rewrite Nat2Z.inj_succ, <- Z.add_1_r, inject_Z_plus.
  reflexivity.
Qed.

Lemma accumulation_loop_last_zero inputs currentAge n yr pv ci d :
  (1 <= yr)%nat -> expectedReturn inputs == 0 ->
  portfolioValue (last (accumulation_loop inputs currentAge (S n) yr pv ci) d)
  == pv + monthlyContribution inputs * 12 * of_nat n.
Proof.
  intros Hyr Hr. revert yr pv ci Hyr.
  induction n as [|n IH]; intros yr pv ci Hyr.
  - cbn. change (of_nat 0) with 0. ring.
  - change (accumulation_loop inputs currentAge (S (S n)) yr pv ci)
      with (mkSimulationResult yr (currentAge + yr) pv
              (if Nat.eqb yr 0 then 0 else monthlyContribution inputs * 12)
              (pv * expectedReturn inputs) 0
              (pv / (ci * (1 + inflationRate inputs)))
            :: accumulation_loop inputs currentAge (S n) (S yr)
                 (pv + (if Nat.eqb yr 0 then 0
                        else monthlyContribution inputs * 12)
                  + pv * expectedReturn inputs)
                 (ci * (1 + inflationRate inputs))).
    rewrite last_cons_ne by (cbn; discriminate).
    rewrite IH by lia.
    destruct yr as [|yr]; [lia|]. cbn [Nat.eqb].
    rewrite (of_nat_succ n), Hr. ring.
Qed.

(** X4. The portfolio at retirement in closed form, for every input: ten
    or any other number [n] of years of growth on the savings, and the
    contributions of the years 1 to [n - 1] only, the one recorded for
    year [n] not being in the snapshot of year [n].  At a zero rate of
    return it is the savings plus [n - 1] yearly contributions. *)
Theorem fire_portfolio_at_retirement (inputs : PortfolioInputs)
    (currentAge : nat) (monthlyExpenses : number) (retirementYears : nat) :
  let n := yearsToRetirement inputs in
  let p := portfolioAtRetirement
             (calculateFIRE inputs currentAge monthlyExpenses
                retirementYears) in
  (~ expectedReturn inputs == 0 ->
   p == currentSavings inputs * (1 + expectedReturn inputs) ^ Z.of_nat n
        + monthlyContribution inputs * 12
          * (((1 + expectedReturn inputs) ^ Z.of_nat (n - 1) - 1)
             / expectedReturn inputs)) /\
  (expectedReturn inputs == 0 ->
   p == currentSavings inputs
        + monthlyContribution inputs * 12 * of_nat (n - 1)) /\
  (n = 0%nat -> p = currentSavings inputs).
Proof.
  cbn zeta. split; [|split].
  - intro Hr.
    exact (portfolioAtRetirement_closed_form inputs currentAge
             monthlyExpenses retirementYears Hr).
  - intro Hr. unfold calculateFIRE. cbn [portfolioAtRetirement].
    unfold calculateAccumulation.
    destruct (yearsToRetirement inputs) as [|n].
    + cbn. change (of_nat 0) with 0. ring.
    + change (accumulation_loop inputs currentAge (S (S n)) 0
                (currentSavings inputs) 1)
        with (mkSimulationResult 0 (currentAge + 0) (currentSavings inputs) 0
                (currentSavings inputs * expectedReturn inputs) 0
                (currentSavings inputs / (1 * (1 + inflationRate inputs)))
              :: accumulation_loop inputs currentAge (S n) 1
                   (currentSavings inputs + 0
                    + currentSavings inputs * expectedReturn inputs)
                   (1 * (1 + inflationRate inputs))).
      rewrite last_cons_ne by (cbn; discriminate).
      rewrite accumulation_loop_last_zero by (auto; lia).
      replace (S n - 1)%nat with n by lia. rewrite Hr. ring.
  - intro Hn. unfold calculateFIRE. cbn [portfolioAtRetirement].
    unfold calculateAccumulation. rewrite Hn. reflexivity.
Qed.

Lemma fire_portfolio_at_retirement_witness :
  portfolioAtRetirement
    (calculateFIRE (mkPortfolioInputs 1000 100 3 0 0.02 0.04) 30 2000 40)
  == 1000 + 100 * 12 * of_nat (3 - 1).
Proof.
  apply (fire_portfolio_at_retirement
           (mkPortfolioInputs 1000 100 3 0 0.02 0.04) 30 2000 40).
  reflexivity.
Defined.

(** ** Further properties of the drawdown and of [calculateFIRE] *)

Lemma depleted_fill_nth startAge n remaining k r :
  nth_error (depleted_fill startAge n remaining) k = Some r ->
  year r = (remaining + k)%nat /\ age r = (startAge + (remaining + k))%nat /\
  contribution r = 0.
Proof.
  revert remaining k. induction n as [|n IH]; intros remaining k H.
  - destruct k; discriminate.
  - destruct k as [|k]; cbn in H.
    + injection H as <-. cbn. rewrite Nat.add_0_r. auto.
    + apply IH in H. rewrite Nat.add_succ_r. exact H.
Qed.

Lemma drawdown_loop_nth expRet inflRate startAge n yr pv cw ci k r :
  nth_error (drawdown_loop expRet inflRate startAge n yr pv cw ci) k
  = Some r ->
  year r = (yr + k)%nat /\ age r = (startAge + (yr + k))%nat /\
  contribution r = 0.
Proof.
  revert yr pv cw ci k. induction n as [|n IH]; intros yr pv cw ci k H.
  - destruct k; discriminate.
  - cbn [drawdown_loop] in H. destruct (num_le _ 0).
    + destruct k as [|k]; cbn [nth_error] in H.
      * injection H as <-. cbn. rewrite Nat.add_0_r. auto.
      * apply depleted_fill_nth in H. rewrite Nat.add_succ_r. exact H.
    + destruct k as [|k]; cbn [nth_error] in H.
      * injection H as <-. cbn. rewrite Nat.add_0_r. auto.
      * apply IH in H. rewrite Nat.add_succ_r. exact H.
Qed.

Lemma drawdown_loop_head expRet inflRate startAge n yr pv cw ci :
  nth_error (drawdown_loop expRet inflRate startAge (S n) yr pv cw ci) 0
  = Some (mkSimulationResult yr (startAge + yr) (Math_max 0 pv) 0
            (if num_gt pv 0 then pv * expRet else 0)
            (if Nat.eqb yr 0 then 0 else cw)
            (Math_max 0 pv / (ci * (1 + inflRate)))).
Proof. cbn [drawdown_loop]. destruct (num_le _ 0); reflexivity. Qed.

(** X5. [calculateDrawdown] returns [years + 1] records whether or not the
    portfolio is depleted on the way; the record of year [k] carries year
    [k], age [startAge + k] and no contribution, and year 0 shows the
    starting portfolio clamped at 0 and no withdrawal. *)
Theorem drawdown_records
    (startingPortfolio annualWithdrawal0 expRet inflRate : number)
    (years startAge k : nat) (Hk : (k <= years)%nat) :
  let rs := calculateDrawdown startingPortfolio annualWithdrawal0 expRet
              inflRate years startAge in
  length rs = S years /\
  exists r,
    nth_error rs k = Some r /\
    year r = k /\ age r = (startAge + k)%nat /\ contribution r = 0 /\
    (k = 0%nat ->
     portfolioValue r = Math_max 0 startingPortfolio /\ withdrawal r = 0).
Proof.
  cbn zeta. unfold calculateDrawdown.
  split; [apply drawdown_loop_length|].
  destruct (nth_error_defined
              (drawdown_loop expRet inflRate startAge (S years) 0
                 startingPortfolio annualWithdrawal0 1) k) as [r Hr].
  { rewrite drawdown_loop_length. lia. }
  exists r. split; [exact Hr|].
  destruct (drawdown_loop_nth _ _ _ _ _ _ _ _ _ _ Hr) as (Hy & Ha & Hc).
  cbn [Nat.add] in *.
  split; [exact Hy|]. split; [exact Ha|]. split; [exact Hc|].
  intros ->. rewrite drawdown_loop_head in Hr. injection Hr as <-.
  split; reflexivity.
Qed.

Lemma drawdown_records_witness :
  (2 <= 3)%nat /\ length (calculateDrawdown 100 60 0.05 0.02 3 65) = 4%nat.
Proof.
  split; [lia |].
  apply (drawdown_records 100 60 0.05 0.02 3 65 2). lia.
Defined.

Lemma findIndex_lt {A : Type} (p : A -> bool) (l : list A) (i : nat) :
  findIndex p l = Some i -> (i < length l)%nat.
Proof.
  revert i. induction l as [|x l IH]; intros i H; [discriminate|].
  cbn in H. destruct (p x).
  - injection H as <-. cbn. lia.
  - destruct (findIndex p l) as [j|]; [|discriminate].
    injection H as <-. specialize (IH j eq_refl). cbn. lia.
Qed.

Lemma findIndex_depleted_fill startAge n remaining :
  findIndex (fun r => num_le (portfolioValue r) 0)
    (depleted_fill startAge n remaining)
  = if Nat.eqb n 0 then None else Some 0%nat.
Proof. destruct n; reflexivity. Qed.

(** Entered with a positive portfolio, the first record of value 0 is the
    one after the year of the [break], if there is one. *)
Lemma findIndex_drawdown_loop expRet inflRate startAge n yr pv cw ci :
  0 < pv ->
  findIndex (fun r => num_le (portfolioValue r) 0)
    (drawdown_loop expRet inflRate startAge n yr pv cw ci)
  = match depletion_year expRet inflRate n yr pv cw with
    | Some d => if (d - yr + 1 <? n)%nat then Some (d - yr + 1)%nat else None
    | None => None
    end.
Proof.
  revert yr pv cw ci. induction n as [|n IH]; intros yr pv cw ci Hpv.
  - reflexivity.
  - cbn [drawdown_loop depletion_year].
    assert (Hhead : num_le (Math_max 0 pv) 0 = false).
    { apply num_le_false.
      rewrite Math_max_0_of_nonneg by (apply Qlt_le_weak; exact Hpv).
      exact Hpv. }
    destruct (num_le (pv + pv * expRet
                      - (if Nat.eqb yr 0 then 0 else cw)) 0) eqn:E.
    + cbn [findIndex portfolioValue]. rewrite Hhead.
      rewrite findIndex_depleted_fill.
      replace (yr - yr + 1)%nat with 1%nat by lia.
      destruct n as [|n]; reflexivity.
    + cbn [findIndex portfolioValue]. rewrite Hhead.
      apply num_le_false in E. rewrite (IH (S yr) _ _ _ E).
      destruct (depletion_year expRet inflRate n (S yr) _ _) as [d|] eqn:Ed;
        [|reflexivity].
      apply depletion_year_ge in Ed.
      replace (d - yr + 1)%nat with (S (d - S yr + 1)) by lia.
      change (S (d - S yr + 1) <? S n)%nat with (d - S yr + 1 <? n)%nat.
      destruct (d - S yr + 1 <? n)%nat; reflexivity.
Qed.

(** X6. The years of runway reported by [calculateFIRE] never exceed
    [retirementYears], and they are 0 when nothing is left at
    retirement. *)
Theorem fire_yearsOfRunway_bound (inputs : PortfolioInputs)
    (currentAge : nat) (monthlyExpenses : number) (retirementYears : nat) :
  let res := calculateFIRE inputs currentAge monthlyExpenses
               retirementYears in
  (yearsOfRunway res <= retirementYears)%nat /\
  (portfolioAtRetirement res <= 0 -> yearsOfRunway res = 0%nat).
Proof.
  cbn zeta. unfold calculateFIRE.
  cbn [yearsOfRunway portfolioAtRetirement].
  set (P := portfolioValue (last (calculateAccumulation inputs currentAge)
                              zeroResult)).
  split.
  - destruct (findIndex _ _) as [d|] eqn:E; [|lia].
    apply findIndex_lt in E. unfold calculateDrawdown in E.
    rewrite drawdown_loop_length in E. lia.
  - intro HP. unfold calculateDrawdown.
    assert (Hhead : num_le (Math_max 0 P) 0 = true).
    { apply num_le_true. rewrite (Math_max_0_of_nonpos P HP).
      apply Qle_refl. }
    pose proof (drawdown_loop_head (expectedReturn inputs - 0.01)
                  (inflationRate inputs)
                  (currentAge + yearsToRetirement inputs) retirementYears 0
                  P (P * withdrawalRate inputs) 1) as Hh.
    destruct (drawdown_loop _ _ _ (S retirementYears) 0 P _ 1) as [|r rs];
      [discriminate|].
    cbn in Hh. injection Hh as ->.
    cbn [findIndex portfolioValue]. now rewrite Hhead.
Qed.

(** X7. With a positive portfolio at retirement the years of runway are
    the year after the drawdown loop finds the portfolio depleted, and
    [retirementYears] when it never does; a depletion found in the last
    year leaves no zero record behind and is reported as the full
    [retirementYears] too. *)
Theorem fire_yearsOfRunway_depletion (inputs : PortfolioInputs)
    (currentAge : nat) (monthlyExpenses : number) (retirementYears : nat)
    (Hpos : 0 < portfolioAtRetirement
                  (calculateFIRE inputs currentAge monthlyExpenses
                     retirementYears)) :
  let res := calculateFIRE inputs currentAge monthlyExpenses
               retirementYears in
  yearsOfRunway res
  = match depletion_year (expectedReturn inputs - 0.01)
            (inflationRate inputs) (S retirementYears) 0
            (portfolioAtRetirement res) (annualWithdrawal res) with
    | Some d => Nat.min (S d) retirementYears
    | None => retirementYears
    end.
Proof.
  cbn zeta. unfold calculateFIRE in *.
  cbn [yearsOfRunway portfolioAtRetirement annualWithdrawal] in *.
  set (P := portfolioValue (last (calculateAccumulation inputs currentAge)
                              zeroResult)) in *.
  unfold calculateDrawdown.
  rewrite (findIndex_drawdown_loop _ _ _ _ _ _ _ _ Hpos).
  destruct (depletion_year _ _ _ _ _ _) as [d|]; [|reflexivity].
  rewrite Nat.sub_0_r, Nat.add_1_r.
  destruct (S d <? S retirementYears)%nat eqn:E.
  - apply Nat.ltb_lt in E. lia.
  - apply Nat.ltb_ge in E. lia.
Qed.

Lemma fire_yearsOfRunway_depletion_witness :
  0 < portfolioAtRetirement
        (calculateFIRE (mkPortfolioInputs 1000 0 0 0.01 0 0.5) 60 2000 5) /\
  yearsOfRunway
    (calculateFIRE (mkPortfolioInputs 1000 0 0 0.01 0 0.5) 60 2000 5)
  = 3%nat.
Proof.
  assert (H : 0 < portfolioAtRetirement
                    (calculateFIRE (mkPortfolioInputs 1000 0 0 0.01 0 0.5)
                       60 2000 5)) by reflexivity.
  split; [exact H|].
  rewrite (fire_yearsOfRunway_depletion
             (mkPortfolioInputs 1000 0 0 0.01 0 0.5) 60 2000 5 H).
  reflexivity.
Defined.

Lemma nth_error_tail {A : Type} (l : list A) (k : nat) :
  nth_error (tl l) k = nth_error l (S k).
Proof. destruct l; [now destruct k | reflexivity]. Qed.

(** X8. The projections of [calculateFIRE] hold one record per age from
    [currentAge] to the end of retirement, in order: the accumulation
    records followed by the drawdown records without their year 0, whose
    age is that of the last accumulation record. *)
Theorem fire_projections_ages (inputs : PortfolioInputs) (currentAge : nat)
    (monthlyExpenses : number) (retirementYears k : nat)
    (r : SimulationResult)
    (Hr : nth_error
            (projections (calculateFIRE inputs currentAge monthlyExpenses
                            retirementYears)) k = Some r) :
  length (projections (calculateFIRE inputs currentAge monthlyExpenses
                         retirementYears))
  = (yearsToRetirement inputs + 1 + retirementYears)%nat /\
  age r = (currentAge + k)%nat /\
  ((k <= yearsToRetirement inputs)%nat -> year r = k) /\
  ((yearsToRetirement inputs < k)%nat ->
   year r = (k - yearsToRetirement inputs)%nat).
Proof.
  unfold calculateFIRE in *. cbn [projections] in *.
  set (P := portfolioValue (last (calculateAccumulation inputs currentAge)
                              zeroResult)) in *.
  set (dd := calculateDrawdown P (P * withdrawalRate inputs)
               (expectedReturn inputs - 0.01) (inflationRate inputs)
               retirementYears (currentAge + yearsToRetirement inputs)) in *.
  assert (Ldd : length dd = S retirementYears)
    by apply drawdown_loop_length.
  split.
  - rewrite length_app, calculateAccumulation_length.
    destruct dd; [discriminate|]. cbn in *. lia.
  - destruct (Nat.le_gt_cases k (yearsToRetirement inputs)) as [Hle|Hgt].
    + rewrite nth_error_app1 in Hr
        by (rewrite calculateAccumulation_length; lia).
      destruct (accumulation_loop_nth _ _ _ _ _ _ _ _ Hr) as (Hy & Ha & _).
      cbn [Nat.add] in *. split; [exact Ha|]. split; [auto | lia].
    + rewrite nth_error_app2 in Hr
        by (rewrite calculateAccumulation_length; lia).
      rewrite calculateAccumulation_length in Hr.
      rewrite nth_error_tail in Hr. unfold dd, calculateDrawdown in Hr.
      destruct (drawdown_loop_nth _ _ _ _ _ _ _ _ _ _ Hr) as (Hy & Ha & _).
      cbn [Nat.add] in *. split; [lia|]. split; [lia|]. intros _. lia.
Qed.

Lemma fire_projections_ages_witness :
  exists r,
    nth_error (projections
                 (calculateFIRE (mkPortfolioInputs 1000 0 1 0.01 0 0.5)
                    60 2000 2)) 2 = Some r /\
    age r = 62%nat.
Proof.
  eexists. split; [reflexivity|].
  apply (fire_projections_ages (mkPortfolioInputs 1000 0 1 0.01 0 0.5)
           60 2000 2 2).
  reflexivity.
Defined.

(** X9. The success probability of [calculateFIRE] is 0.95 once the
    portfolio at retirement reaches the FIRE number, and below it is 80% of
    the ratio reached, hence under 0.8: for a positive FIRE number it never
    exceeds 0.95 and the cap at 0.99 is never what is returned. *)
Theorem fire_successProbability (inputs : PortfolioInputs) (currentAge : nat)
    (monthlyExpenses : number) (retirementYears : nat)
    (HF : 0 < fireNumber (calculateFIRE inputs currentAge monthlyExpenses
                            retirementYears)) :
  let res := calculateFIRE inputs currentAge monthlyExpenses
               retirementYears in
  (fireNumber res <= portfolioAtRetirement res ->
   successProbability res = 0.95) /\
  (portfolioAtRetirement res < fireNumber res ->
   successProbability res
   = portfolioAtRetirement res / fireNumber res * 0.8 /\
   successProbability res < 0.8) /\
  successProbability res <= 0.95.
Proof.
  cbn zeta. unfold calculateFIRE in *.
  cbn [fireNumber portfolioAtRetirement successProbability] in *.
  set (P := portfolioValue (last (calculateAccumulation inputs currentAge)
                              zeroResult)) in *.
  set (F := monthlyExpenses * 12 / withdrawalRate inputs) in *.
  assert (Hlow : P < F -> Math_min (P / F * 0.8) 0.99 = P / F * 0.8
                          /\ P / F * 0.8 < 0.8).
  { intro HPF.
    assert (Hr : P / F < 1) by (apply Qlt_shift_div_r; lra).
    split; [|lra].
    unfold Math_min.
    replace (Qle_bool (P / F * 0.8) 0.99) with true; [reflexivity|].
    symmetry. apply Qle_bool_iff. lra. }
  split; [|split].
  - intro H. apply Qle_bool_iff in H. unfold num_ge. rewrite H. reflexivity.
  - intro H. assert (E : num_ge P F = false)
      by (unfold num_ge; apply (num_le_false F P); exact H).
    rewrite E. destruct (Hlow H) as [-> Hlt]. split; [reflexivity|exact Hlt].
  - destruct (num_ge P F) eqn:E.
    + cbn. discriminate.
    + apply (num_le_false F P) in E. destruct (Hlow E) as [-> Hlt]. lra.
Qed.

Lemma fire_successProbability_witness :
  0 < fireNumber (calculateFIRE (mkPortfolioInputs 1000 0 0 0.05 0.02 0.04)
                    60 2000 5) /\
  successProbability
    (calculateFIRE (mkPortfolioInputs 1000 0 0 0.05 0.02 0.04) 60 2000 5)
  <= 0.95.
Proof.
  assert (H : 0 < fireNumber
                    (calculateFIRE
                       (mkPortfolioInputs 1000 0 0 0.05 0.02 0.04)
                       60 2000 5)) by reflexivity.
  split; [exact H|].
  apply (fire_successProbability
           (mkPortfolioInputs 1000 0 0 0.05 0.02 0.04) 60 2000 5 H).
Defined.

(** X10. For a positive withdrawal rate, the portfolio at retirement
    reaches the FIRE number exactly when the annual withdrawal covers the
    annual expenses; the monthly withdrawal is a twelfth of the annual
    one. *)
Theorem fire_number_covers_expenses (inputs : PortfolioInputs)
    (currentAge : nat) (monthlyExpenses : number) (retirementYears : nat)
    (Hwr : 0 < withdrawalRate inputs) :
  let res := calculateFIRE inputs currentAge monthlyExpenses
               retirementYears in
  (fireNumber res <= portfolioAtRetirement res
   <-> monthlyExpenses * 12 <= annualWithdrawal res) /\
  annualWithdrawal res
  == portfolioAtRetirement res * withdrawalRate inputs /\
  monthlyWithdrawal res * 12 == annualWithdrawal res.
Proof.
  cbn zeta. unfold calculateFIRE.
  cbn [fireNumber portfolioAtRetirement annualWithdrawal monthlyWithdrawal].
  set (P := portfolioValue (last (calculateAccumulation inputs currentAge)
                              zeroResult)).
  split; [|split; [reflexivity | field]].
  split; intro H.
  - apply (Qmult_le_r _ _ _ Hwr) in H.
    setoid_replace (monthlyExpenses * 12 / withdrawalRate inputs
                    * withdrawalRate inputs)
      with (monthlyExpenses * 12) in H by (field; lra).
    exact H.
  - apply Qle_shift_div_r; [exact Hwr | exact H].
Qed.

Lemma fire_number_covers_expenses_witness :
  0 < withdrawalRate (mkPortfolioInputs 1000 0 0 0.05 0.02 0.04) /\
  monthlyWithdrawal
    (calculateFIRE (mkPortfolioInputs 1000 0 0 0.05 0.02 0.04) 60 2000 5)
  * 12
  == annualWithdrawal
       (calculateFIRE (mkPortfolioInputs 1000 0 0 0.05 0.02 0.04) 60 2000 5).
Proof.
  split; [reflexivity|].
  apply (fire_number_covers_expenses
           (mkPortfolioInputs 1000 0 0 0.05 0.02 0.04) 60 2000 5).
  reflexivity.
Defined.

(** ** The budget and the runway *)

(** X11. Round trip: with the FIRE number computed for a monthly expense,
    the affordable monthly budget is that expense again, for every
    non-zero withdrawal rate. *)
Theorem fire_number_budget_roundtrip (monthlyExpenses withdrawalRate : number)
    (Hwr : ~ withdrawalRate == 0) :
  let b := calculateAffordableBudget
             (calculateFIRENumber monthlyExpenses withdrawalRate)
             withdrawalRate in
  monthly b == monthlyExpenses /\ annual b == monthlyExpenses * 12.
Proof.
  cbn zeta. unfold calculateAffordableBudget, calculateFIRENumber, sgdToUsd.
  cbn [monthly annual]. split; field; exact Hwr.
Qed.

Lemma fire_number_budget_roundtrip_witness :
  ~ 0.04 == 0 /\
  monthly (calculateAffordableBudget (calculateFIRENumber 2000 0.04) 0.04)
  == 2000.
Proof.
  split; [discriminate|].
  apply (fire_number_budget_roundtrip 2000 0.04). discriminate.
Defined.

(** X12. The runway of [CountryDetail] and [calculateAffordableBudget]
    agree: the annual withdrawal of the one is the annual budget of the
    other, the budget is twelve times its monthly amount, and the years of
    runway are the affordable monthly budget divided by the monthly cost of
    the tier. *)
Theorem runway_is_budget_over_cost (costTotal : CostTotal)
    (selectedBudget : BudgetTier) (portfolioValue withdrawalRate : number)
    (Hcost : ~ total_at costTotal selectedBudget == 0) :
  let r := CountryDetail_runway costTotal selectedBudget portfolioValue
             withdrawalRate in
  let b := calculateAffordableBudget portfolioValue withdrawalRate in
  runway_annualWithdrawal r == annual b /\
  annual b == 12 * monthly b /\
  runway_yearsOfRunway r == monthly b / total_at costTotal selectedBudget.
Proof.
  cbn zeta. unfold CountryDetail_runway, calculateAffordableBudget, sgdToUsd.
  cbn [runway_annualWithdrawal runway_yearsOfRunway monthly annual].
  split; [field|]. split; [ring|]. field. exact Hcost.
Qed.

Lemma runway_is_budget_over_cost_witness :
  ~ total_at (mkCostTotal 1000 1500 2500) moderate == 0 /\
  runway_annualWithdrawal
    (CountryDetail_runway (mkCostTotal 1000 1500 2500) moderate 1000000 0.04)
  == annual (calculateAffordableBudget 1000000 0.04).
Proof.
  split; [discriminate|].
  apply (runway_is_budget_over_cost (mkCostTotal 1000 1500 2500) moderate
           1000000 0.04).
  discriminate.
Defined.

Lemma Math_min_r_iff (x c : number) : Math_min x c == c <-> c <= x.
Proof.
  unfold Math_min. destruct (Qle_bool x c) eqn:E.
  - apply Qle_bool_iff in E. split; intro H; [rewrite <- H; apply Qle_refl|].
    apply Qle_antisym; assumption.
  - apply (num_le_false x c) in E. split; intro H; [lra | reflexivity].
Qed.

(** X13. For a tier whose cost is not 0, the years charted by [App] are
    those of [CountryDetail] capped at 100, and the cap is reached exactly
    when [CountryDetail] prints the infinity sign instead of a rounded
    number.  (At a cost of 0 the source divides by zero.) *)
Theorem runway_chart_cap (costTotal : CostTotal) (selectedBudget : BudgetTier)
    (portfolioToUse withdrawalRate : number)
    (Hcost : ~ total_at costTotal selectedBudget == 0) :
  let y := runway_yearsOfRunway
             (CountryDetail_runway costTotal selectedBudget portfolioToUse
                withdrawalRate) in
  let charted := App_runwayYears costTotal selectedBudget portfolioToUse
                   withdrawalRate in
  charted = Math_min y 100 /\ charted <= 100 /\
  (charted == 100 <-> CountryDetail_runway_shown y = None) /\
  (y < 100 -> charted = y /\
              CountryDetail_runway_shown y = Some (Math_round y)).
Proof.
  cbn zeta. unfold App_runwayYears, CountryDetail_runway.
  cbn [runway_yearsOfRunway].
  set (y := portfolioToUse * withdrawalRate * 0.74
            / (total_at costTotal selectedBudget * 12)).
  split; [reflexivity|]. split; [apply Math_min_le_r|].
  unfold CountryDetail_runway_shown, num_ge. split.
  - rewrite Math_min_r_iff. destruct (Qle_bool 100 y) eqn:E.
    + apply Qle_bool_iff in E. tauto.
    + apply (num_le_false 100 y) in E. split; [lra | discriminate].
  - intro H. assert (E : Qle_bool 100 y = false)
      by (apply (num_le_false 100 y); exact H).
    rewrite E. split; [|reflexivity].
    unfold Math_min. replace (Qle_bool y 100) with true; [reflexivity|].
    symmetry. apply Qle_bool_iff. lra.
Qed.

Lemma runway_chart_cap_witness :
  let y := runway_yearsOfRunway
             (CountryDetail_runway (mkCostTotal 1000 1500 2500) frugal
                1000000 0.04) in
  ~ total_at (mkCostTotal 1000 1500 2500) frugal == 0 /\
  y < 100 /\
  App_runwayYears (mkCostTotal 1000 1500 2500) frugal 1000000 0.04 = y.
Proof.
  cbn zeta. split; [discriminate|]. split; [reflexivity|].
  apply (runway_chart_cap (mkCostTotal 1000 1500 2500) frugal 1000000 0.04).
  - discriminate.
  - reflexivity.
Defined.

(** X14. On the globe, for a non-negative portfolio and a positive cost,
    the score of a country lies between 0 and 1 and its size between 0.3
    and 1.1; a country is affordable exactly when its score is 1, that is
    when the converted portfolio pays for 25 years (300 months) of the
    tier's cost; and the runway of [CountryDetail] is this runway
    multiplied by the withdrawal rate, which the globe leaves out. *)
Theorem globe_score (costTotal : CostTotal) (selectedBudget : BudgetTier)
    (portfolioValue withdrawalRate : number)
    (Hpv : 0 <= portfolioValue)
    (Hcost : 0 < total_at costTotal selectedBudget) :
  let d := globe_countryData costTotal selectedBudget portfolioValue in
  0 <= gd_score d <= 1 /\
  0.3 <= gd_size d <= 1.1 /\
  (gd_affordable d = true <-> gd_score d == 1) /\
  (gd_affordable d = true
   <-> 300 * total_at costTotal selectedBudget <= portfolioValue * 0.74) /\
  runway_yearsOfRunway
    (CountryDetail_runway costTotal selectedBudget portfolioValue
       withdrawalRate)
  == withdrawalRate * gd_yearsRunway d.
Proof.
  cbn zeta. unfold globe_countryData, CountryDetail_runway.
  cbn [gd_score gd_size gd_affordable gd_yearsRunway runway_yearsOfRunway].
  set (c := total_at costTotal selectedBudget) in *.
  set (y := portfolioValue * 0.74 / (c * 12)).
  assert (Hc12 : 0 < c * 12) by lra.
  assert (Hy : 0 <= y).
  { unfold y. apply Qle_shift_div_l; [exact Hc12 | lra]. }
  assert (Hs0 : 0 <= Math_min (y / 25) 1).
  { apply Math_min_glb; [|discriminate].
    apply Qle_shift_div_l; [reflexivity | lra]. }
  assert (Hs1 : Math_min (y / 25) 1 <= 1) by apply Math_min_le_r.
  assert (Hy25 : 25 <= y <-> 300 * c <= portfolioValue * 0.74).
  { unfold y. split; intro H.
    - apply (Qmult_le_r _ _ _ Hc12) in H.
      setoid_replace (portfolioValue * 0.74 / (c * 12) * (c * 12))
        with (portfolioValue * 0.74) in H by (field; lra).
      lra.
    - apply Qle_shift_div_l; [exact Hc12 | lra]. }
  split; [split; assumption|]. split; [split; lra|].
  split; [|split].
  - unfold num_ge. rewrite Qle_bool_iff, Math_min_r_iff. split; intro H.
    + apply Qle_shift_div_l; [reflexivity | lra].
    + apply (Qmult_le_r _ _ 25) in H; [|reflexivity].
      setoid_replace (y / 25 * 25) with y in H by field. lra.
  - unfold num_ge. rewrite Qle_bool_iff. exact Hy25.
  - unfold y. field. lra.
Qed.

Lemma globe_score_witness :
  0 <= 1000000 /\ 0 < total_at (mkCostTotal 1000 1500 2500) frugal /\
  gd_score (globe_countryData (mkCostTotal 1000 1500 2500) frugal 1000000)
  <= 1.
Proof.
  split; [discriminate|]. split; [reflexivity|].
  apply (globe_score (mkCostTotal 1000 1500 2500) frugal 1000000 0.04);
    [discriminate | reflexivity].
Defined.

Lemma Math_round_bounds (a b : Z) (x : number) :
  inject_Z a <= x -> x <= inject_Z b ->
  inject_Z a <= Math_round x <= inject_Z b.
Proof.
  intros Ha Hb. unfold Math_round. rewrite <- !Zle_Qle. split.
  - rewrite <- (Qfloor_Z a). apply Qfloor_resp_le. lra.
  - assert (H : (Qfloor (x + 0.5) < b + 1)%Z).
    { rewrite Zlt_Qlt, inject_Z_plus.
      eapply Qle_lt_trans; [apply Qfloor_le|].
      change (inject_Z 1) with 1. lra. }
    lia.
Qed.

(** X15. For a score between 0 and 1 every channel of the colour of
    [getColorForScore] is an integer between 0 and 255, so the string it
    formats is a valid colour; the scale runs from (239, 68, 68) at 0 to
    (34, 205, 128) at 1. *)
Theorem color_channels_in_range (score : number)
    (H0 : 0 <= score) (H1 : score <= 1) :
  let '(r, g, b) := getColorForScore score in
  (0 <= r <= 255 /\ 0 <= g <= 255 /\ 0 <= b <= 255) /\
  (exists zr zg zb, r = inject_Z zr /\ g = inject_Z zg /\ b = inject_Z zb) /\
  getColorForScore 0 = (239, 68, 68) /\
  getColorForScore 1 = (34, 205, 128).
Proof.
  unfold getColorForScore.
  destruct (num_lt score 0.4) eqn:E1; [|destruct (num_lt score 0.7) eqn:E2].
  - apply num_lt_true in E1. split; [|split; [|split; reflexivity]].
    + split; [split; discriminate|]. split; [|split; discriminate].
      apply (Math_round_bounds 0 255).
      * lra_div.
      * lra_div.
    + exists 239%Z, (Qfloor (68 + score / 0.4 * 100 + 0.5)), 68%Z.
      repeat split; reflexivity.
  - unfold num_lt in E1. rewrite Bool.negb_false_iff in E1.
    apply Qle_bool_iff in E1. apply num_lt_true in E2.
    split; [|split; [|split; reflexivity]].
    + split; [split; discriminate|]. split; [|split; discriminate].
      apply (Math_round_bounds 0 255).
      * lra_div.
      * lra_div.
    + exists 239%Z, (Qfloor (168 + (score - 0.4) / 0.3 * 87 + 0.5)), 68%Z.
      repeat split; reflexivity.
  - unfold num_lt in E2. rewrite Bool.negb_false_iff in E2.
    apply Qle_bool_iff in E2.
    split; [|split; [|split; reflexivity]].
    + split; [|split]; apply (Math_round_bounds 0 255); lra_div.
    + do 3 eexists. repeat split; reflexivity.
Qed.

Lemma color_channels_in_range_witness :
  0 <= 0.5 /\ 0.5 <= 1 /\ getColorForScore 1 = (34, 205, 128).
Proof.
  split; [discriminate|]. split; [discriminate|].
  pose proof (color_channels_in_range 0.5) as H.
  cbv beta iota zeta delta [getColorForScore] in H.
  change (num_lt 0.5 0.4) with false in H.
  change (num_lt 0.5 0.7) with true in H.
  cbv iota in H.
  apply H; discriminate.
Defined.

(** ** Further properties of the CPF functions *)

Lemma rates_for_age_total_le (age : nat) :
  rates_total (rates_for_age age) <= 0.37.
Proof.
  unfold rates_for_age.
  destruct (age <=? 55)%nat; [discriminate|].
  destruct (age <=? 60)%nat; [discriminate|].
  destruct (age <=? 65)%nat; discriminate.
Qed.

(** X16. The wage ceiling: every salary of 6,800 or more gives the
    contributions of a salary of 6,800. *)
Theorem cpf_contribution_ceiling (monthlySalary : number) (age : nat)
    (H : OA_WAGE_CEILING <= monthlySalary) :
  let c := calculateCPFContribution monthlySalary age in
  let c0 := calculateCPFContribution OA_WAGE_CEILING age in
  bal_OA c == bal_OA c0 /\ bal_SA c == bal_SA c0 /\
  bal_MA c == bal_MA c0 /\ bal_total c == bal_total c0 /\
  bal_total c0 == 6800 * rates_total (rates_for_age age).
Proof.
  cbn zeta. unfold calculateCPFContribution.
  cbn [bal_OA bal_SA bal_MA bal_total].
  assert (E : Math_min monthlySalary OA_WAGE_CEILING == OA_WAGE_CEILING).
  { apply Math_min_r_iff. exact H. }
  assert (E0 : Math_min OA_WAGE_CEILING OA_WAGE_CEILING = OA_WAGE_CEILING)
    by reflexivity.
  rewrite E0, E. repeat split; reflexivity.
Qed.

Lemma cpf_contribution_ceiling_witness :
  OA_WAGE_CEILING <= 8000 /\
  bal_total (calculateCPFContribution 8000 40)
  == bal_total (calculateCPFContribution OA_WAGE_CEILING 40).
Proof.
  split; [discriminate|].
  apply (cpf_contribution_ceiling 8000 40). discriminate.
Defined.

(** X17. [ANNUAL_LIMIT] is never read, and never exceeded: twelve monthly
    contributions are at most 30,192 for every salary and age.  The three
    parts returned add up to the total times the sum of the bracket's
    ratios. *)
Theorem cpf_contribution_below_annual_limit (monthlySalary : number)
    (age : nat) :
  let c := calculateCPFContribution monthlySalary age in
  bal_total c * 12 <= 30192 /\ 30192 < ANNUAL_LIMIT /\
  bal_OA c + bal_SA c + bal_MA c
  == bal_total c * allocation_sum (rates_for_age age).
Proof.
  cbn zeta. unfold calculateCPFContribution, allocation_sum.
  cbn [bal_OA bal_SA bal_MA bal_total].
  pose proof (Math_min_le_r monthlySalary OA_WAGE_CEILING) as Hm.
  destruct (rates_for_age_pos age) as (Ht & _).
  pose proof (rates_for_age_total_le age) as Hle.
  set (m := Math_min monthlySalary OA_WAGE_CEILING) in *.
  set (t := rates_total (rates_for_age age)) in *.
  unfold OA_WAGE_CEILING in Hm.
  split; [|split; [reflexivity | ring]].
  destruct (Qlt_le_dec m 0) as [Hneg|Hpos].
  - assert (m * t <= 0).
    { setoid_replace (m * t) with (- ((- m) * t)) by ring.
      assert (0 <= (- m) * t) by (apply Qmult_le_0_compat; lra). lra. }
    lra.
  - assert (m * t <= 6800 * t) by (apply Qmult_le_compat_r; lra).
    lra.
Qed.

(** X18. The total interest does not depend on how the extra interest is
    split between SA and MA: it is the base interest plus 1% of the part of
    the first 60,000 that the balances fill (OA counting for at most
    20,000), plus from age 55 1% of the part of the first 30,000; the two
    extras are at most 600 and 300. *)
Theorem cpf_interest_total (b : CPFBalances) (age : nat) :
  let i := calculateCPFInterest b age in
  let first60 :=
    Math_min (bal_OA b) 20000
    + Math_min (bal_SA b + bal_MA b) (60000 - Math_min (bal_OA b) 20000) in
  let first30 :=
    Math_min (bal_OA b) 30000
    + Math_min (bal_SA b + bal_MA b) (30000 - Math_min (bal_OA b) 30000) in
  bal_total i
  == bal_OA b * 0.025 + (bal_SA b + bal_MA b) * 0.04 + first60 * 0.01
     + (if (55 <=? age)%nat then first30 * 0.01 else 0) /\
  first60 <= 60000 /\ first30 <= 30000.
Proof.
  cbn zeta. unfold calculateCPFInterest, CPF_RATES.
  cbn [rate_OA rate_SA rate_MA EXTRA_FIRST_60K EXTRA_55_PLUS_FIRST_30K].
  pose proof (Math_min_le_r (bal_SA b + bal_MA b)
                (60000 - Math_min (bal_OA b) 20000)).
  pose proof (Math_min_le_r (bal_SA b + bal_MA b)
                (30000 - Math_min (bal_OA b) 30000)).
  split; [|split; lra].
  destruct (55 <=? age)%nat; cbn [bal_total]; ring.
Qed.

Lemma Math_min_le_sum (a c : number) : 0 <= a -> 0 <= c -> 0 <= Math_min a c.
Proof. intros. now apply Math_min_glb. Qed.

(** X19. The effective rate is the default 0.04 when the total is not
    positive; for non-negative balances whose [total] is their sum and is
    positive it lies between the OA rate 2.5% and 6%. *)
Theorem effective_rate_bounds (b : CPFBalances) (age : nat) :
  (bal_total b <= 0 -> getEffectiveCPFRate b age = 0.04) /\
  (0 <= bal_OA b -> 0 <= bal_SA b -> 0 <= bal_MA b ->
   bal_total b == bal_OA b + bal_SA b + bal_MA b -> 0 < bal_total b ->
   0.025 <= getEffectiveCPFRate b age <= 0.06).
Proof.
  unfold getEffectiveCPFRate. split.
  - intro H. apply num_gt_false in H. now rewrite H.
  - intros Ho Hs Hm Ht Hpos.
    assert (E : num_gt (bal_total b) 0 = true) by (apply num_gt_true; exact Hpos).
    rewrite E.
    assert (Hi : bal_total (calculateCPFInterest b age)
                 == bal_OA b * 0.025 + (bal_SA b + bal_MA b) * 0.04
                    + (Math_min (bal_OA b) 20000
                       + Math_min (bal_SA b + bal_MA b)
                           (60000 - Math_min (bal_OA b) 20000)) * 0.01
                    + (if (55 <=? age)%nat
                       then (Math_min (bal_OA b) 30000
                             + Math_min (bal_SA b + bal_MA b)
                                 (30000 - Math_min (bal_OA b) 30000)) * 0.01
                       else 0)).
    { unfold calculateCPFInterest, CPF_RATES.
      cbn [rate_OA rate_SA rate_MA EXTRA_FIRST_60K EXTRA_55_PLUS_FIRST_30K].
      destruct (55 <=? age)%nat; cbn [bal_total]; ring. }
    pose proof (Math_min_le_l (bal_OA b) 20000) as A1.
    pose proof (Math_min_le_l (bal_SA b + bal_MA b)
                  (60000 - Math_min (bal_OA b) 20000)) as A2.
    pose proof (Math_min_le_l (bal_OA b) 30000) as A3.
    pose proof (Math_min_le_l (bal_SA b + bal_MA b)
                  (30000 - Math_min (bal_OA b) 30000)) as A4.
    pose proof (Math_min_le_r (bal_OA b) 20000) as R1.
    pose proof (Math_min_le_r (bal_OA b) 30000) as R3.
    assert (B1 : 0 <= Math_min (bal_OA b) 20000)
      by (apply Math_min_glb; [exact Ho | discriminate]).
    assert (B3 : 0 <= Math_min (bal_OA b) 30000)
      by (apply Math_min_glb; [exact Ho | discriminate]).
    assert (B2 : 0 <= Math_min (bal_SA b + bal_MA b)
                        (60000 - Math_min (bal_OA b) 20000))
      by (apply Math_min_glb; lra).
    assert (B4 : 0 <= Math_min (bal_SA b + bal_MA b)
                        (30000 - Math_min (bal_OA b) 30000))
      by (apply Math_min_glb; lra).
    set (m1 := Math_min (bal_OA b) 20000) in *.
    set (m2 := Math_min (bal_SA b + bal_MA b) (60000 - m1)) in *.
    set (m3 := Math_min (bal_OA b) 30000) in *.
    set (m4 := Math_min (bal_SA b + bal_MA b) (30000 - m3)) in *.
    set (it := bal_total (calculateCPFInterest b age)) in *.
    assert (Hlo : 0.025 * bal_total b <= it)
      by (rewrite Hi; destruct (55 <=? age)%nat; lra).
    assert (Hhi : it <= 0.06 * bal_total b)
      by (rewrite Hi; destruct (55 <=? age)%nat; lra).
    split.
    + apply Qle_shift_div_l; [exact Hpos | exact Hlo].
    + apply Qle_shift_div_r; [exact Hpos | exact Hhi].
Qed.

Lemma effective_rate_bounds_witness :
  0.025 <= getEffectiveCPFRate (mkCPFBalances 100000 80000 40000 220000) 50
        <= 0.06.
Proof.
  apply (effective_rate_bounds (mkCPFBalances 100000 80000 40000 220000) 50);
    try discriminate; reflexivity.
Defined.

Lemma cpf_loop_length monthlySalary currentAge stopContributionsAtAge n yr s :
  length (cpf_loop monthlySalary currentAge stopContributionsAtAge n yr s)
  = n.
Proof.
  revert yr s. induction n as [|n IH]; intros yr s; [reflexivity|].
  cbn [cpf_loop]. destruct (cpf_step _ _ _ yr s) as [rec s'].
  cbn [length]. now rewrite IH.
Qed.

Lemma projectCPF_length currentBalances monthlySalary currentAge
    yearsToProject stopContributionsAtAge :
  length (projectCPF currentBalances monthlySalary currentAge yearsToProject
            stopContributionsAtAge) = S yearsToProject.
Proof. apply cpf_loop_length. Qed.

(** X20. [projectCPF] returns [yearsToProject + 1] records; the record of
    year [k] carries year [k] and age [currentAge + k], and its
    contributions are 0 from [stopContributionsAtAge] on. *)
Theorem projectCPF_records (currentBalances : CPFBalances)
    (monthlySalary : number)
    (currentAge yearsToProject stopContributionsAtAge k : nat)
    (Hk : (k <= yearsToProject)%nat) :
  let rs := projectCPF currentBalances monthlySalary currentAge
              yearsToProject stopContributionsAtAge in
  exists r,
    nth_error rs k = Some r /\ nth_error rs (S yearsToProject) = None /\
    proj_year r = k /\ proj_age r = (currentAge + k)%nat /\
    ((stopContributionsAtAge <= currentAge + k)%nat ->
     proj_contributions r = 0).
Proof.
  cbn zeta. rewrite (projectCPF_nth _ _ _ _ _ k Hk).
  eexists. split; [reflexivity|]. split.
  - apply nth_error_None. rewrite projectCPF_length. lia.
  - unfold cpf_step. cbn [fst proj_year proj_age proj_contributions].
    split; [reflexivity|]. split; [reflexivity|].
    intro Hstop. unfold cpf_annualContributions.
    replace (currentAge + k <? stopContributionsAtAge)%nat with false
      by (symmetry; apply Nat.ltb_ge; exact Hstop).
    reflexivity.
Qed.

Lemma projectCPF_records_witness :
  (3 <= 5)%nat /\
  exists r,
    nth_error (projectCPF (mkCPFBalances 100 200 300 600) 5000 50 5 52) 3
    = Some r /\ proj_age r = 53%nat /\ proj_contributions r = 0.
Proof.
  split; [lia|].
  destruct (projectCPF_records (mkCPFBalances 100 200 300 600) 5000 50 5 52 3)
    as (r & H1 & _ & _ & H2 & H3); [lia|].
  exists r. split; [exact H1|]. split; [exact H2|]. apply H3. lia.
Defined.

(** RA stays 0 until an iteration of a later year falls on age 55. *)
Lemma cpf_state_at_RA_zero currentBalances monthlySalary currentAge
    stopContributionsAtAge k :
  (forall j, (j < k)%nat -> ~ ((currentAge + j = 55)%nat /\ (0 < j)%nat)) ->
  st_RA (cpf_state_at currentBalances monthlySalary currentAge
           stopContributionsAtAge k) == 0.
Proof.
  induction k as [|k IH]; intro H.
  - reflexivity.
  - cbn [cpf_state_at]. unfold cpf_step. cbn [snd st_RA].
    assert (T : cpf_transfer (currentAge + k) k
                  (cpf_state_at currentBalances monthlySalary currentAge
                     stopContributionsAtAge k)
                = cpf_state_at currentBalances monthlySalary currentAge
                    stopContributionsAtAge k).
    { unfold cpf_transfer.
      destruct ((currentAge + k =? 55)%nat && (0 <? k)%nat) eqn:E;
        [|reflexivity].
      apply Bool.andb_true_iff in E. destruct E as [E1 E2].
      apply Nat.eqb_eq in E1. apply Nat.ltb_lt in E2.
      exfalso. apply (H k); [lia | split; assumption]. }
    rewrite T. specialize (IH ltac:(intros j Hj; apply H; lia)).
    destruct (55 <=? currentAge + k)%nat; rewrite IH;
      [unfold CPF_RATES; cbn [rate_RA]; ring | reflexivity].
Qed.

(** X21. RA is 0 in every record of an age below 55; and a projection
    that starts at 55 or later never makes the transfer, the year-0
    iteration being excluded from it: RA is 0 in all its records. *)
Theorem projectCPF_RA_zero (currentBalances : CPFBalances)
    (monthlySalary : number)
    (currentAge yearsToProject stopContributionsAtAge k : nat)
    (r : CPFProjection)
    (Hr : nth_error (projectCPF currentBalances monthlySalary currentAge
                       yearsToProject stopContributionsAtAge) k = Some r)
    (Hage : (currentAge + k < 55)%nat \/ (55 <= currentAge)%nat) :
  proj_RA r = 0 /\
  proj_SA r
  = Math_round (st_SA (cpf_state_at currentBalances monthlySalary currentAge
                         stopContributionsAtAge k)).
Proof.
  assert (Hk : (k <= yearsToProject)%nat).
  { apply Nat.lt_succ_r.
    rewrite <- (projectCPF_length currentBalances monthlySalary currentAge
                  yearsToProject stopContributionsAtAge).
    apply nth_error_Some. congruence. }
  rewrite (projectCPF_nth _ _ _ _ _ k Hk) in Hr. injection Hr as <-.
  assert (Hno : ~ ((currentAge + k = 55)%nat /\ (0 < k)%nat)) by lia.
  assert (T : cpf_transfer (currentAge + k) k
                (cpf_state_at currentBalances monthlySalary currentAge
                   stopContributionsAtAge k)
              = cpf_state_at currentBalances monthlySalary currentAge
                  stopContributionsAtAge k).
  { unfold cpf_transfer.
    destruct ((currentAge + k =? 55)%nat && (0 <? k)%nat) eqn:E;
      [|reflexivity].
    apply Bool.andb_true_iff in E. destruct E as [E1 E2].
    apply Nat.eqb_eq in E1. apply Nat.ltb_lt in E2. lia. }
  unfold cpf_step. cbn [fst proj_RA proj_SA]. rewrite T.
  split; [|reflexivity].
  rewrite <- Math_round_0. apply Math_round_comp.
  apply cpf_state_at_RA_zero. intros j Hj. lia.
Qed.

Lemma projectCPF_RA_zero_witness :
  exists r,
    nth_error (projectCPF (mkCPFBalances 0 1000 0 1000) 0 55 2 55) 2
    = Some r /\ proj_RA r = 0.
Proof.
  eexists. split; [reflexivity|].
  apply (projectCPF_RA_zero (mkCPFBalances 0 1000 0 1000) 0 55 2 55 2).
  - reflexivity.
  - right. lia.
Defined.

Lemma Math_round_mono (x y : number) : x <= y -> Math_round x <= Math_round y.
Proof.
  intro H. unfold Math_round. rewrite <- Zle_Qle.
  apply Qfloor_resp_le. lra.
Qed.

Lemma Math_round_nonneg (x : number) : 0 <= x -> 0 <= Math_round x.
Proof. intro H. rewrite <- Math_round_0. now apply Math_round_mono. Qed.

(** X22. Non-negative balances and a non-negative salary give a
    projection without a negative amount: every balance, total,
    contribution and interest recorded is at least 0. *)
Theorem projectCPF_nonneg (currentBalances : CPFBalances)
    (monthlySalary : number)
    (currentAge yearsToProject stopContributionsAtAge : nat)
    (Hsal : 0 <= monthlySalary)
    (HOA : 0 <= bal_OA currentBalances)
    (HSA : 0 <= bal_SA currentBalances)
    (HMA : 0 <= bal_MA currentBalances) :
  Forall (fun r =>
            0 <= proj_OA r /\ 0 <= proj_SA r /\ 0 <= proj_MA r /\
            0 <= proj_RA r /\ 0 <= proj_total r /\
            0 <= proj_contributions r /\ 0 <= proj_interest r)
    (projectCPF currentBalances monthlySalary currentAge yearsToProject
       stopContributionsAtAge).
Proof.
  apply Forall_forall. intros r Hin.
  apply In_nth_error in Hin. destruct Hin as [k Hk].
  assert (Hle : (k <= yearsToProject)%nat).
  { apply Nat.lt_succ_r.
    rewrite <- (projectCPF_length currentBalances monthlySalary currentAge
                  yearsToProject stopContributionsAtAge).
    apply nth_error_Some. congruence. }
  rewrite (projectCPF_nth _ _ _ _ _ k Hle) in Hk. injection Hk as <-.
  pose proof (cpf_state_at_nonneg currentBalances monthlySalary currentAge
                stopContributionsAtAge k Hsal HOA HSA HMA) as Hs.
  apply (cpf_transfer_nonneg (currentAge + k) k) in Hs.
  unfold cpf_step.
  cbn [fst proj_OA proj_SA proj_MA proj_RA proj_total proj_contributions
       proj_interest].
  set (s1 := cpf_transfer (currentAge + k) k _) in *.
  destruct Hs as (Ho & Hsa & Hm & Hr).
  destruct (cpf_annualContributions_nonneg monthlySalary (currentAge + k)
              stopContributionsAtAge Hsal) as (_ & _ & _ & Ct).
  destruct (calculateCPFInterest_nonneg
              (mkCPFBalances (st_OA s1) (st_SA s1) (st_MA s1)
                 (st_OA s1 + st_SA s1 + st_MA s1)) (currentAge + k)
              Ho Hsa Hm) as (Io & Is & Im).
  repeat split; apply Math_round_nonneg; try assumption; try lra.
  unfold calculateCPFInterest in *. cbn [bal_OA bal_SA bal_MA bal_total] in *.
  destruct (55 <=? currentAge + k)%nat;
    cbn [bal_OA bal_SA bal_MA bal_total] in *; lra.
Qed.

Lemma projectCPF_nonneg_witness :
  Forall (fun r => 0 <= proj_total r)
    (projectCPF (mkCPFBalances 100 200 300 600) 5000 53 3 60).
Proof.
  eapply Forall_impl;
    [|apply (projectCPF_nonneg (mkCPFBalances 100 200 300 600) 5000 53 3 60);
      discriminate].
  cbn beta. tauto.
Defined.

(** X23. For a non-negative RA balance the three payout estimates are
    whole, non-negative amounts in the order escalating <= basic <=
    standard. *)
Theorem cpf_life_payout_order (raBalance : number) (H : 0 <= raBalance) :
  let p := estimateCPFLifePayout raBalance in
  0 <= payout_escalating p /\
  payout_escalating p <= payout_basic p /\
  payout_basic p <= payout_standard p /\
  payout_standard p <= raBalance * 0.0055 + 0.5.
Proof.
  cbn zeta. unfold estimateCPFLifePayout.
  cbn [payout_standard payout_basic payout_escalating].
  split; [apply Math_round_nonneg; lra|].
  split; [apply Math_round_mono; lra|].
  split; [apply Math_round_mono; lra|].
  unfold Math_round. apply Qfloor_le.
Qed.

Lemma cpf_life_payout_order_witness :
  0 <= 205800 /\
  payout_basic (estimateCPFLifePayout 205800)
  <= payout_standard (estimateCPFLifePayout 205800).
Proof.
  split; [discriminate|].
  apply (cpf_life_payout_order 205800). discriminate.
Defined.

Lemma find_first_by_index {A : Type} (key : A -> nat) (l : list A) :
  forall base t,
    (forall k x, nth_error l k = Some x -> key x = (base + k)%nat) ->
    find_first (fun x => Nat.eqb (key x) (base + t)) l = nth_error l t.
Proof.
  induction l as [|x l IH]; intros base t H.
  - now destruct t.
  - cbn [find_first]. pose proof (H 0%nat x eq_refl) as Hx.
    rewrite Nat.add_0_r in Hx. rewrite Hx.
    destruct t as [|t].
    + rewrite Nat.add_0_r, Nat.eqb_refl. reflexivity.
    + replace (base =? base + S t)%nat with false
        by (symmetry; apply Nat.eqb_neq; lia).
      cbn [nth_error]. rewrite <- (IH (S base) t).
      * now rewrite Nat.add_succ_r.
      * intros k y Hy. rewrite (H (S k) y Hy). lia.
Qed.

(** X24. The CPF amount [App] adds to the portfolio is the total recorded
    at the retirement age, a year without contributions, when retirement
    is at most 40 years away; beyond the 40 projected years no record has
    that age and the amount is silently 0, so that including the CPF
    changes nothing. *)
Theorem app_cpf_withdrawable (cpfBalances : CPFBalances)
    (monthlySalary : number) (currentAge yearsToRetirement : nat) :
  let w := App_cpfWithdrawable cpfBalances monthlySalary currentAge
             yearsToRetirement in
  let rs := App_cpfProjection cpfBalances monthlySalary currentAge
              yearsToRetirement in
  ((yearsToRetirement <= 40)%nat ->
   exists r,
     nth_error rs yearsToRetirement = Some r /\ w = proj_total r /\
     proj_age r = (currentAge + yearsToRetirement)%nat /\
     proj_contributions r = 0) /\
  ((40 < yearsToRetirement)%nat ->
   w = 0 /\
   forall includeCPF portfolioAtRetirement,
     App_combinedPortfolio includeCPF portfolioAtRetirement w
     == portfolioAtRetirement).
Proof.
  cbn zeta. unfold App_cpfWithdrawable, App_cpfProjection.
  rewrite (find_first_by_index proj_age _ currentAge yearsToRetirement).
  2:{ intros k x Hx.
      assert (Hk : (k <= 40)%nat).
      { apply Nat.lt_succ_r.
        rewrite <- (projectCPF_length cpfBalances monthlySalary currentAge
                      40 (currentAge + yearsToRetirement)).
        apply nth_error_Some. congruence. }
      rewrite (projectCPF_nth _ _ _ _ _ k Hk) in Hx.
      injection Hx as <-. reflexivity. }
  split.
  - intro H.
    rewrite (projectCPF_nth _ _ _ _ _ yearsToRetirement H).
    eexists. split; [reflexivity|]. split; [reflexivity|].
    unfold cpf_step. cbn [fst proj_age proj_contributions].
    split; [reflexivity|]. unfold cpf_annualContributions.
    rewrite Nat.ltb_irrefl. reflexivity.
  - intro H.
    replace (nth_error _ yearsToRetirement) with (@None CPFProjection).
    + split; [reflexivity|]. intros [|] p; cbn; ring.
    + symmetry. apply nth_error_None. rewrite projectCPF_length. lia.
Qed.

Lemma app_cpf_withdrawable_witness :
  (41 > 40)%nat /\
  App_cpfWithdrawable (mkCPFBalances 100000 80000 40000 220000) 8000 20 41
  = 0.
Proof.
  split; [lia|].
  apply (app_cpf_withdrawable (mkCPFBalances 100000 80000 40000 220000)
           8000 20 41).
  lia.
Defined.

(** ** The per-country projection *)

Lemma Math_max_0_round (x : number) :
  Math_max 0 (Math_round x) = Math_round (Math_max 0 x).
Proof.
  destruct (Qlt_le_dec x 0) as [Hneg|Hpos].
  - assert (E : Math_max 0 x = 0).
    { unfold Math_max. replace (Qle_bool 0 x) with false; [reflexivity|].
      symmetry. apply (num_le_false 0 x). exact Hneg. }
    rewrite E, Math_round_0.
    unfold Math_round, Math_max.
    assert (Hz : (Qfloor (x + 0.5) <= 0)%Z).
    { change 0%Z with (Qfloor 0.5). apply Qfloor_resp_le. lra. }
    destruct (Qle_bool 0 (inject_Z (Qfloor (x + 0.5)))) eqn:Eb;
      [|reflexivity].
    apply Qle_bool_iff in Eb. change 0 with (inject_Z 0) in Eb.
    rewrite <- Zle_Qle in Eb.
    replace (Qfloor (x + 0.5)) with 0%Z by lia. reflexivity.
  - rewrite (Math_max_0_of_nonneg x Hpos).
    apply Math_max_0_of_nonneg. apply Math_round_nonneg. exact Hpos.
Qed.

Lemma projection_fill_matches startAge n remaining :
  Forall2 projection_matches (depleted_fill startAge n remaining)
    (projection_fill startAge n remaining).
Proof.
  revert remaining. induction n as [|n IH]; intro remaining; cbn.
  - constructor.
  - constructor; [|apply IH]. repeat split; reflexivity.
Qed.

Lemma projection_loop_matches ret infl startAge n yr pv cw ci :
  0 < pv ->
  Forall2 projection_matches
    (drawdown_loop ret infl startAge n yr pv cw ci)
    (projection_loop ret infl startAge n yr pv cw).
Proof.
  revert yr pv cw ci. induction n as [|n IH]; intros yr pv cw ci Hpv.
  - constructor.
  - cbn [drawdown_loop projection_loop].
    assert (Hrec : projection_matches
              (mkSimulationResult yr (startAge + yr) (Math_max 0 pv) 0
                 (if num_gt pv 0 then pv * ret else 0)
                 (if Nat.eqb yr 0 then 0 else cw)
                 (Math_max 0 pv / (ci * (1 + infl))))
              (mkYearlyData (startAge + yr) yr
                 (Math_max 0 (Math_round pv))
                 (Math_round (if Nat.eqb yr 0 then 0 else cw))
                 (Math_round (pv * ret)) (Math_round cw))).
    { repeat split; cbn; try reflexivity.
      - apply Math_max_0_round.
      - replace (num_gt pv 0) with true; [reflexivity|].
        symmetry. apply num_gt_true. exact Hpv. }
    destruct (num_le (pv + pv * ret - (if Nat.eqb yr 0 then 0 else cw)) 0)
      eqn:E.
    + constructor; [exact Hrec | apply projection_fill_matches].
    + constructor; [exact Hrec|]. apply IH. apply num_le_false. exact E.
Qed.

(** X25. The projection of [CountryProjection] is the deterministic
    drawdown of [calculateDrawdown] over 50 years, started from the
    portfolio at retirement with the tier's yearly cost converted to SGD as
    first withdrawal and the same return haircut of 0.01, every amount
    rounded: the two lists match record by record. *)
Theorem country_projection_is_drawdown (costTotal : CostTotal)
    (selectedBudget : BudgetTier) (portfolioAtRetirement0 : number)
    (retirementAge : nat) (expRet inflRate : number)
    (Hpos : 0 < portfolioAtRetirement0) :
  Forall2 projection_matches
    (calculateDrawdown portfolioAtRetirement0
       (total_at costTotal selectedBudget * 12 / 0.74) (expRet - 0.01)
       inflRate 50 retirementAge)
    (CountryProjection_projection costTotal selectedBudget
       portfolioAtRetirement0 retirementAge expRet inflRate) /\
  length (CountryProjection_projection costTotal selectedBudget
            portfolioAtRetirement0 retirementAge expRet inflRate)
  = 51%nat.
Proof.
  assert (H : Forall2 projection_matches
    (calculateDrawdown portfolioAtRetirement0
       (total_at costTotal selectedBudget * 12 / 0.74) (expRet - 0.01)
       inflRate 50 retirementAge)
    (CountryProjection_projection costTotal selectedBudget
       portfolioAtRetirement0 retirementAge expRet inflRate)).
  { unfold calculateDrawdown, CountryProjection_projection.
    apply projection_loop_matches. exact Hpos. }
  split; [exact H|].
  apply Forall2_length in H. rewrite <- H.
  unfold calculateDrawdown. apply drawdown_loop_length.
Qed.

Lemma country_projection_is_drawdown_witness :
  0 < 1000000 /\
  length (CountryProjection_projection (mkCostTotal 1000 1500 2500) frugal
            1000000 60 0.07 0.03)
  = 51%nat.
Proof.
  split; [reflexivity|].
  apply (country_projection_is_drawdown (mkCostTotal 1000 1500 2500) frugal
           1000000 60 0.07 0.03).
  reflexivity.
Defined.

(** ** Further properties of the Monte Carlo simulation *)

Lemma mc_trials_successCount rnd inputs retirementYears n pos :
  (snd (mc_trials rnd inputs retirementYears n pos) <= n)%nat.
Proof.
  revert pos. induction n as [|n IH]; intro pos; cbn; [lia|].
  destruct (mc_trial rnd inputs retirementYears pos) as [yv pos'].
  specialize (IH pos').
  destruct (mc_trials rnd inputs retirementYears n pos') as [rest cnt].
  cbn in *. destruct (match last_elem yv with
                      | Some v => num_gt v 0
                      | None => false
                      end); lia.
Qed.

Lemma map_age_seq (currentAge a n : nat) :
  map (fun yr => (currentAge + yr + 1)%nat) (seq a n)
  = seq (currentAge + a + 1) n.
Proof.
  revert a. induction n as [|n IH]; intro a; [reflexivity|].
  cbn [seq map]. rewrite IH. f_equal. f_equal. lia.
Qed.

(** X26. The result of the simulation has one entry per simulated year in
    each of its five percentile arrays and in [years], which counts the
    ages from [currentAge + 1]; the success rate is a fraction between 0
    and 1 with at least one trial, and NaN with none. *)
Theorem monte_carlo_shape (rnd : nat -> number) (inputs : PortfolioInputs)
    (currentAge : nat) (monthlyExpenses : number)
    (simulations retirementYears : nat) :
  let res := runMonteCarloSimulation rnd inputs currentAge monthlyExpenses
               simulations retirementYears in
  let totalYears := (yearsToRetirement inputs + retirementYears)%nat in
  length (percentile5 res) = totalYears /\
  length (percentile25 res) = totalYears /\
  length (percentile50 res) = totalYears /\
  length (percentile75 res) = totalYears /\
  length (percentile95 res) = totalYears /\
  years res = seq (currentAge + 1) totalYears /\
  (simulations = 0%nat -> successRate res = None) /\
  ((1 <= simulations)%nat ->
   exists v, successRate res = Some v /\ 0 <= v <= 1).
Proof.
  cbn zeta. unfold runMonteCarloSimulation.
  pose proof (mc_trials_successCount rnd inputs retirementYears
                simulations 0) as Hcnt.
  destruct (mc_trials rnd inputs retirementYears simulations 0)
    as [allResults successCount].
  cbn [snd] in Hcnt.
  cbn [percentile5 percentile25 percentile50 percentile75 percentile95
       years successRate].
  rewrite !length_map, !length_seq.
  do 5 (split; [reflexivity|]).
  split; [|split].
  - rewrite map_age_seq. f_equal. lia.
  - intros ->. reflexivity.
  - intro H. replace (simulations =? 0)%nat with false
      by (symmetry; apply Nat.eqb_neq; lia).
    eexists. split; [reflexivity|].
    assert (Hn : 0 < of_nat simulations).
    { unfold of_nat. change 0 with (inject_Z 0). rewrite <- Zlt_Qlt. lia. }
    split.
    + apply Qle_shift_div_l; [exact Hn|].
      pose proof (of_nat_nonneg successCount). lra.
    + apply Qle_shift_div_r; [exact Hn|].
      unfold of_nat. rewrite Qmult_1_l, <- Zle_Qle. lia.
Qed.

Lemma monte_carlo_shape_witness :
  exists v,
    successRate
      (runMonteCarloSimulation (fun i => of_nat i / 10)
         (mkPortfolioInputs 1000 10 1 0.07 0.03 0.04) 30 0 3 1) = Some v /\
    0 <= v <= 1.
Proof.
  apply (monte_carlo_shape (fun i => of_nat i / 10)
           (mkPortfolioInputs 1000 10 1 0.07 0.03 0.04) 30 0 3 1).
  lia.
Defined.

Lemma count_lt_perm (v : number) (l l' : list number) :
  Permutation l l' -> count_lt v l = count_lt v l'.
Proof.
  induction 1 as [|x l l' _ IH|x y l|l l' l'' _ IH1 _ IH2]; cbn;
    [reflexivity | now rewrite IH | lia | congruence].
Qed.

Lemma count_le_perm (v : number) (l l' : list number) :
  Permutation l l' -> count_le v l = count_le v l'.
Proof.
  induction 1 as [|x l l' _ IH|x y l|l l' l'' _ IH1 _ IH2]; cbn;
    [reflexivity | now rewrite IH | lia | congruence].
Qed.

Lemma count_le_lt (a b : number) (l : list number) :
  a < b -> (count_le a l <= count_lt b l)%nat.
Proof.
  intro H. induction l as [|x l IH]; cbn; [lia|].
  destruct (num_le x a) eqn:E1; destruct (num_lt x b) eqn:E2; try lia.
  apply num_le_true in E1. unfold num_lt in E2.
  rewrite Bool.negb_false_iff in E2. apply Qle_bool_iff in E2. lra.
Qed.

Lemma count_lt_none (y : number) (l : list number) :
  Forall (fun x => y <= x) l -> count_lt y l = 0%nat.
Proof.
  induction 1 as [|x l Hx _ IH]; cbn; [reflexivity|].
  rewrite IH. replace (num_lt x y) with false; [reflexivity|].
  symmetry. unfold num_lt. rewrite Bool.negb_false_iff.
  apply Qle_bool_iff. exact Hx.
Qed.

(** In a sorted array the index of a value lies between the number of
    smaller elements and the number of elements not larger. *)
Lemma sorted_index_counts (l : list number) (i : nat) (a : number) :
  StronglySorted Qle l -> nth_error l i = Some a ->
  (count_lt a l <= i < count_le a l)%nat.
Proof.
  intro Hs. revert i. induction Hs as [|y l Hs IH Hy]; intros i Hi.
  - destruct i; discriminate.
  - destruct i as [|i]; cbn in Hi.
    + injection Hi as ->. cbn. rewrite (count_lt_none a l Hy).
      replace (num_lt a a) with false
        by (symmetry; unfold num_lt; rewrite Bool.negb_false_iff;
            apply Qle_bool_iff, Qle_refl).
      replace (num_le a a) with true
        by (symmetry; apply num_le_true, Qle_refl).
      lia.
    + specialize (IH i Hi). cbn.
      assert (Hya : y <= a).
      { rewrite Forall_forall in Hy. apply Hy. eapply nth_error_In, Hi. }
      replace (num_le y a) with true
        by (symmetry; apply num_le_true; exact Hya).
      destruct (num_lt y a); lia.
Qed.

(** Two sorted arrays with the same elements hold the same number at
    every index. *)
Lemma sorted_perm_nth (l l' : list number) (i : nat) (a b : number) :
  StronglySorted Qle l -> StronglySorted Qle l' -> Permutation l l' ->
  nth_error l i = Some a -> nth_error l' i = Some b -> a == b.
Proof.
  intros Hs Hs' Hp Ha Hb.
  pose proof (sorted_index_counts l i a Hs Ha) as Ca.
  pose proof (sorted_index_counts l' i b Hs' Hb) as Cb.
  rewrite (count_lt_perm a l l' Hp), (count_le_perm a l l' Hp) in Ca.
  destruct (Q_dec a b) as [[Hlt|Hgt]|Heq]; [| |exact Heq].
  - pose proof (count_le_lt a b l' Hlt). lia.
  - pose proof (count_le_lt b a l' Hgt). lia.
Qed.

Lemma defined_perm {A : Type} (l l' : list (option A)) :
  Permutation l l' -> Permutation (defined l) (defined l').
Proof.
  induction 1 as [|x l l' _ IH|x y l|l l' l'' _ IH1 _ IH2].
  - constructor.
  - destruct x; cbn; [apply perm_skip|]; exact IH.
  - destruct x, y; cbn; try apply Permutation_refl. apply perm_swap.
  - eapply perm_trans; eassumption.
Qed.

(** Sorting a shuffled array gives the same number at every index. *)
Lemma sort_numbers_undef_perm (l l' : list (option number)) (i : nat) :
  Permutation l l' ->
  match nth_error (sort_numbers_undef l) i,
        nth_error (sort_numbers_undef l') i with
  | Some a, Some b => same_number a b
  | None, None => True
  | _, _ => False
  end.
Proof.
  intro Hp. unfold sort_numbers_undef.
  pose proof (defined_perm l l' Hp) as Hd.
  pose proof (Permutation_length Hp) as Ll.
  pose proof (Permutation_length Hd) as Ld.
  set (s := sort_numbers (defined l)).
  set (s' := sort_numbers (defined l')).
  assert (Ls : length s = length (defined l)) by apply sort_numbers_length.
  assert (Ls' : length s' = length (defined l'))
    by apply sort_numbers_length.
  assert (Hss : Permutation s s').
  { eapply perm_trans; [apply (sort_by_perm (fun x => x))|].
    eapply perm_trans; [exact Hd|].
    apply Permutation_sym, (sort_by_perm (fun x => x)). }
  destruct (Nat.lt_ge_cases i (length s)) as [Hi|Hi].
  - rewrite !nth_error_app1 by (rewrite ?length_map; lia).
    rewrite !nth_error_map.
    destruct (nth_error_defined s i Hi) as [a Ha].
    destruct (nth_error_defined s' i ltac:(lia)) as [b Hb].
    rewrite Ha, Hb. cbn.
    exact (sorted_perm_nth s s' i a b (sort_by_sorted (fun x => x) _)
             (sort_by_sorted (fun x => x) _) Hss Ha Hb).
  - rewrite !nth_error_app2 by (rewrite ?length_map; lia).
    rewrite !length_map, <- Ls, <- Ls', <- Ll.
    replace (length s') with (length s) by lia.
    destruct (nth_error (repeat None (length l - length s))
                (i - length s)) as [v|] eqn:E; [|exact I].
    apply nth_error_In, repeat_spec in E. subst v. exact I.
Qed.

(** X27. The aggregation does not depend on the order of the trials:
    with the rows of [allResults] shuffled, every percentile of every year
    and the median of the end values denote the same number, or are
    undefined together. *)
Theorem percentiles_order_independent (rows rows' : list (list number))
    (simulations : nat) (p : number) (yr : nat)
    (Hperm : Permutation rows rows') :
  same_number (percentile_at rows simulations p yr)
    (percentile_at rows' simulations p yr) /\
  same_number
    (match nth_error (sort_numbers_undef (map last_elem rows))
             (percentile_index simulations 0.5) with
     | Some v => v
     | None => None
     end)
    (match nth_error (sort_numbers_undef (map last_elem rows'))
             (percentile_index simulations 0.5) with
     | Some v => v
     | None => None
     end).
Proof.
  split.
  - unfold percentile_at, valuesAtYear.
    pose proof (sort_numbers_undef_perm
                  (map (fun r => nth_error r yr) rows)
                  (map (fun r => nth_error r yr) rows')
                  (percentile_index simulations p)
                  (Permutation_map _ Hperm)) as H.
    destruct (nth_error _ _) as [a|]; destruct (nth_error _ _) as [b|];
      try contradiction; [exact H | exact I].
  - pose proof (sort_numbers_undef_perm (map last_elem rows)
                  (map last_elem rows')
                  (percentile_index simulations 0.5)
                  (Permutation_map _ Hperm)) as H.
    destruct (nth_error _ _) as [a|]; destruct (nth_error _ _) as [b|];
      try contradiction; [exact H | exact I].
Qed.

Lemma percentiles_order_independent_witness :
  same_number (percentile_at [[1; 5]; [3; 2]] 2 0.5 0)
    (percentile_at [[3; 2]; [1; 5]] 2 0.5 0).
Proof.
  apply (percentiles_order_independent [[1; 5]; [3; 2]] [[3; 2]; [1; 5]]
           2 0.5 0).
  apply perm_swap.
Defined.

(** ** Further properties of the historical backtest *)

(** Every read of the two data arrays is inside them. *)
Lemma backtest_reads_in_range (inputs : PortfolioInputs)
    (retirementYears startIdx : nat) :
  (startIdx + yearsToRetirement inputs + retirementYears < 96)%nat ->
  (forall yr, (yr < yearsToRetirement inputs)%nat ->
     (startIdx + yr < length HISTORICAL_RETURNS)%nat /\
     (startIdx + yr < length HISTORICAL_INFLATION)%nat) /\
  (forall yr, (yr < retirementYears)%nat ->
     (startIdx + yearsToRetirement inputs + yr
      < length HISTORICAL_RETURNS)%nat /\
     (startIdx + yearsToRetirement inputs + yr
      < length HISTORICAL_INFLATION)%nat).
Proof.
  intro H. rewrite HISTORICAL_RETURNS_length, HISTORICAL_INFLATION_length.
  split; intros yr Hyr; lia.
Qed.

Lemma hb_accumulation_realReturns inputs startIdx startYear n yr s :
  ss_realReturns (hb_accumulation inputs startIdx startYear n yr s)
  = ss_realReturns s ++ map real_return (seq (startIdx + yr) n).
Proof.
  revert yr s. induction n as [|n IH]; intros yr s.
  - cbn. now rewrite app_nil_r.
  - cbn [hb_accumulation]. rewrite IH.
    cbn [hb_accumulation_step ss_realReturns seq map].
    rewrite <- app_assoc. cbn [app]. now rewrite Nat.add_succ_r.
Qed.

Lemma hb_retirement_realReturns inputs startIdx startYear n yr s :
  (startIdx + yearsToRetirement inputs + yr + n <= 96)%nat ->
  ss_realReturns (hb_retirement inputs startIdx startYear n yr s)
  = ss_realReturns s
    ++ map real_return (seq (startIdx + yearsToRetirement inputs + yr) n).
Proof.
  revert yr s. induction n as [|n IH]; intros yr s H.
  - cbn. now rewrite app_nil_r.
  - cbn [hb_retirement]. rewrite HISTORICAL_RETURNS_length.
    replace (96 <=? startIdx + yearsToRetirement inputs + yr)%nat
      with false by (symmetry; apply Nat.leb_gt; lia).
    rewrite IH by lia.
    cbn [hb_retirement_step ss_realReturns seq map].
    rewrite <- app_assoc. cbn [app]. now rewrite Nat.add_succ_r.
Qed.

(** X28. The sequence of a start index with enough data replays the years
    from [1928 + startIdx] on, in order and without a gap: its real
    returns are those of the [yearsToRetirement + retirementYears]
    consecutive years of the data from that index, the early [break] of
    the retirement loop never being taken; its final and lowest values
    are not negative, and it survived exactly when its final value is
    positive. *)
Theorem backtest_sequence_window (inputs : PortfolioInputs)
    (currentAge retirementYears startIdx : nat)
    (Hstart :
       (startIdx + yearsToRetirement inputs + retirementYears < 96)%nat) :
  let total := (yearsToRetirement inputs + retirementYears)%nat in
  exists sq,
    nth_error
      (sequences (runHistoricalBacktest inputs currentAge retirementYears))
      startIdx = Some sq /\
    startYear sq = (1928 + startIdx)%nat /\
    endYear sq = (1928 + startIdx + total - 1)%nat /\
    realReturns sq = map real_return (seq startIdx total) /\
    length (realReturns sq) = total /\
    0 <= finalValue sq /\ 0 <= lowestValue sq /\
    (survived sq = true <-> 0 < finalValue sq).
Proof.
  cbn zeta. exists (hb_sequence inputs retirementYears startIdx).
  split; [exact (backtest_sequence_at inputs currentAge retirementYears
                   startIdx Hstart)|].
  assert (R : realReturns (hb_sequence inputs retirementYears startIdx)
              = map real_return
                  (seq startIdx (yearsToRetirement inputs + retirementYears))).
  { unfold hb_sequence. cbn [realReturns].
    unfold hb_retirement_state.
    rewrite hb_retirement_realReturns by lia.
    unfold hb_at_retirement. cbn [ss_realReturns].
    rewrite hb_accumulation_realReturns. cbn [ss_realReturns app].
    rewrite !Nat.add_0_r, seq_app, map_app. reflexivity. }
  split; [reflexivity|]. split; [reflexivity|]. split; [exact R|].
  split; [rewrite R, length_map, length_seq; reflexivity|].
  unfold hb_sequence. cbn [finalValue lowestValue survived].
  split; [apply Math_max_0_nonneg|]. split; [apply Math_max_0_nonneg|].
  set (p := ss_portfolio _). rewrite num_gt_true.
  destruct (Qlt_le_dec 0 p) as [Hp|Hp].
  - rewrite Math_max_0_of_nonneg by lra. tauto.
  - rewrite (Math_max_0_of_nonpos p Hp). split; intro H; lra.
Qed.

Lemma backtest_sequence_window_witness :
  (1 + 2 + 3 < 96)%nat /\
  exists sq,
    nth_error
      (sequences
         (runHistoricalBacktest (mkPortfolioInputs 1000 10 2 0.07 0.03 0.04)
            30 3)) 1 = Some sq /\
    startYear sq = 1929%nat.
Proof.
  split; [lia|].
  destruct (backtest_sequence_window
              (mkPortfolioInputs 1000 10 2 0.07 0.03 0.04) 30 3 1)
    as (sq & H1 & H2 & _); [cbn; lia|].
  exists sq. split; [exact H1 | exact H2].
Defined.

(** X29. For non-negative savings and contributions and at least one year
    of retirement, a sequence survived exactly when it was never depleted,
    and then every year of the retirement left the portfolio positive. *)
Theorem backtest_survived_iff (inputs : PortfolioInputs)
    (retirementYears startIdx : nat)
    (Hcs : 0 <= currentSavings inputs)
    (Hmc : 0 <= monthlyContribution inputs)
    (Hstart :
       (startIdx + yearsToRetirement inputs + retirementYears < 96)%nat)
    (Hry : (1 <= retirementYears)%nat) :
  let sq := hb_sequence inputs retirementYears startIdx in
  (survived sq = true <-> yearsDepleted sq = None) /\
  (survived sq = true ->
   forall k, (k < retirementYears)%nat ->
             0 < hb_portfolio_at inputs startIdx k) /\
  (survived sq = false -> finalValue sq == 0).
Proof.
  cbn zeta.
  pose proof (hb_history_holds inputs startIdx retirementYears Hcs Hmc
                ltac:(lia)) as [Hinv Hhist].
  cbn zeta in Hhist. unfold hb_inv in Hinv. unfold hb_sequence.
  cbn [survived yearsDepleted finalValue].
  destruct retirementYears as [|n]; [lia|].
  assert (Hlast : ss_yearsDepleted
                    (hb_retirement_state inputs startIdx (S n)) = None ->
                  0 < ss_portfolio
                        (hb_retirement_state inputs startIdx (S n))).
  { intro Hn. rewrite Hn in Hhist. specialize (Hhist n ltac:(lia)).
    rewrite (hb_retirement_state_succ inputs startIdx n) by lia.
    destruct (hb_retirement_step_fields inputs startIdx (1928 + startIdx) n
                (hb_retirement_state inputs startIdx n)) as (_ & _ & Fpos).
    destruct (Fpos Hhist) as [_ ->]. exact Hhist. }
  destruct (ss_yearsDepleted (hb_retirement_state inputs startIdx (S n)))
    as [d|] eqn:Ed.
  - destruct Hinv as [Hp _].
    assert (E : num_gt (ss_portfolio
                          (hb_retirement_state inputs startIdx (S n))) 0
                = false) by (apply num_gt_false; exact Hp).
    rewrite E. split; [split; discriminate|].
    split; [discriminate|]. intros _. apply Math_max_0_of_nonpos, Hp.
  - specialize (Hlast eq_refl).
    assert (E : num_gt (ss_portfolio
                          (hb_retirement_state inputs startIdx (S n))) 0
                = true) by (apply num_gt_true; exact Hlast).
    rewrite E. split; [tauto|]. split; [intros _; exact Hhist|].
    discriminate.
Qed.

Lemma backtest_survived_iff_witness :
  survived (hb_sequence (mkPortfolioInputs 1000 0 0 0.07 0.03 0.5) 4 0)
  = true
  <-> yearsDepleted (hb_sequence (mkPortfolioInputs 1000 0 0 0.07 0.03 0.5)
                       4 0) = None.
Proof.
  apply (backtest_survived_iff (mkPortfolioInputs 1000 0 0 0.07 0.03 0.5)
           4 0); try discriminate; cbn; lia.
Defined.

(** X30. When the horizon fits in the data the aggregates are defined:
    the worst and the best sequence are sequences of the result whose
    final values bound those of all the others, the median final value
    lies between them, and the success rate is a fraction between 0
    and 1. *)
Theorem backtest_worst_best (inputs : PortfolioInputs)
    (currentAge retirementYears : nat)
    (Htotal : (yearsToRetirement inputs + retirementYears < 96)%nat) :
  let res := runHistoricalBacktest inputs currentAge retirementYears in
  exists w b m v,
    worstSequence res = Some w /\ bestSequence res = Some b /\
    medianFinalValue res = Some m /\ hb_successRate res = Some v /\
    In w (sequences res) /\ In b (sequences res) /\
    (forall s, In s (sequences res) ->
               finalValue w <= finalValue s <= finalValue b) /\
    finalValue w <= m <= finalValue b /\ 0 <= v <= 1.
Proof.
  cbn zeta. unfold runHistoricalBacktest.
  rewrite HISTORICAL_RETURNS_length.
  cbn [worstSequence bestSequence medianFinalValue hb_successRate sequences].
  set (seqs := map (hb_sequence inputs retirementYears)
                 (seq 0 (Z.to_nat (Z.of_nat 96
                                   - Z.of_nat (yearsToRetirement inputs
                                               + retirementYears))))).
  assert (Lpos : (0 < length seqs)%nat).
  { unfold seqs. rewrite length_map, length_seq. lia. }
  set (sorted := sort_by finalValue seqs).
  assert (Ls : length sorted = length seqs) by apply sort_by_length.
  assert (Hperm : Permutation sorted seqs) by apply sort_by_perm.
  assert (Hsorted : StronglySorted
                      (fun a b => finalValue a <= finalValue b) sorted)
    by apply (sort_by_sorted finalValue).
  destruct (nth_error_defined sorted 0 ltac:(lia)) as [w Hw].
  destruct (nth_error_defined sorted (length sorted - 1) ltac:(lia))
    as [b Hb].
  assert (Hbounds : forall s, In s seqs ->
                      finalValue w <= finalValue s <= finalValue b).
  { intros s Hs. apply (Permutation_in _ (Permutation_sym Hperm)) in Hs.
    apply In_nth_error in Hs. destruct Hs as [i Hi].
    assert (Hil : (i < length sorted)%nat)
      by (apply nth_error_Some; congruence).
    split.
    - exact (sorted_nth_le finalValue sorted 0 i w s Hsorted
               ltac:(lia) Hw Hi).
    - exact (sorted_nth_le finalValue sorted i (length sorted - 1) s b
               Hsorted ltac:(lia) Hi Hb). }
  set (fvs := sort_numbers (map finalValue seqs)).
  assert (Lf : length fvs = length seqs)
    by (unfold fvs; now rewrite sort_numbers_length, length_map).
  destruct (nth_error_defined fvs (length fvs / 2)) as [m Hm].
  { apply Nat.div_lt; lia. }
  assert (Hmin : exists s, In s seqs /\ finalValue s = m).
  { apply nth_error_In in Hm.
    apply (Permutation_in _ (sort_by_perm (fun x => x) _)) in Hm.
    apply in_map_iff in Hm. destruct Hm as (s & Hs & Hin).
    exists s. split; assumption. }
  exists w, b, m.
  replace (length seqs =? 0)%nat with false
    by (symmetry; apply Nat.eqb_neq; lia).
  eexists. split; [exact Hw|]. split; [exact Hb|]. split; [exact Hm|].
  split; [reflexivity|].
  split; [eapply Permutation_in; [exact Hperm | eapply nth_error_In, Hw]|].
  split; [eapply Permutation_in; [exact Hperm | eapply nth_error_In, Hb]|].
  split; [exact Hbounds|]. split.
  - destruct Hmin as (s & Hs & <-). apply Hbounds, Hs.
  - assert (Hn : 0 < of_nat (length seqs)).
    { unfold of_nat. change 0 with (inject_Z 0). rewrite <- Zlt_Qlt. lia. }
    pose proof (filter_length_le survived seqs) as Hfl.
    split.
    + apply Qle_shift_div_l; [exact Hn|].
      pose proof (of_nat_nonneg (length (filter survived seqs))). lra.
    + apply Qle_shift_div_r; [exact Hn|].
      unfold of_nat. rewrite Qmult_1_l, <- Zle_Qle. lia.
Qed.

Lemma backtest_worst_best_witness :
  (yearsToRetirement (mkPortfolioInputs 1000 10 2 0.07 0.03 0.04) + 3
   < 96)%nat /\
  exists w,
    worstSequence
      (runHistoricalBacktest (mkPortfolioInputs 1000 10 2 0.07 0.03 0.04)
         30 3) = Some w.
Proof.
  split; [cbn; lia|].
  destruct (backtest_worst_best
              (mkPortfolioInputs 1000 10 2 0.07 0.03 0.04) 30 3)
    as (w & _ & _ & _ & H & _); [cbn; lia|].
  exists w. exact H.
Defined.
